(** * Tailscale MCP server: validator and OAuth credential manager

    A shallow embedding of [src/utils.ts] (the input validators) and of
    [src/tailscale/oauth.ts] (the class [TailscaleOAuthManager]), with the
    properties the specification states about them.

    Conventions of the embedding.
    - A JavaScript string is a [string]; its characters are code units (of
      one byte: the patterns and lists of the source name ASCII characters
      only) and [String.length] is the [.length] of the source.
    - A function that may throw returns a [completion]: the value returned
      or the exception thrown.
    - Times are integers, in milliseconds since the epoch, as the source
      obtains them from [Date.now()] and [getTime()].
    - The [logger] calls of the source have no effect on the results and
      are left out, except where evaluating their argument can throw. *)

From Stdlib Require Import ZArith Lia Bool List Ascii String.
From Stdlib Require Import DecimalString DecimalZ DecimalN.
From stdpp Require Import base option strings gmap.

Local Open Scope string_scope.
Local Open Scope Z_scope.
Local Set Warnings "-register-all".
Local Arguments String.append : simpl nomatch.

(** ** JavaScript values, exceptions and completions *)

Module JS.

(** The run-time values that reach the validators. *)
Inductive value : Type :=
| VUndefined
| VNull
| VBool (b : bool)
| VNumber (n : Z)
| VString (s : string)
| VArray (elems : list value)
| VObject.

(** [typeof v === "string"] *)
Definition is_string (v : value) : bool :=
  match v with VString _ => true | _ => false end.

(** [Array.isArray(v)] *)
Definition isArray (v : value) : bool :=
  match v with VArray _ => true | _ => false end.

(** The exceptions the two source files raise or let through. *)
Inductive exn : Type :=
| Error (message : string)
| TypeError (message : string)
| RangeError (message : string).

Definition exn_message (e : exn) : string :=
  match e with
  | Error m | TypeError m | RangeError m => m
  end.

Inductive completion (A : Type) : Type :=
| Returned (a : A)
| Thrown (e : exn).

Arguments Returned {A} a.
Arguments Thrown {A} e.

Definition is_thrown {A} (c : completion A) : bool :=
  match c with Thrown _ => true | Returned _ => false end.

(** Truthiness of a string ([!s] is its negation): only the empty string
    is falsy. *)
Definition truthy (s : string) : bool :=
  match s with EmptyString => false | String _ _ => true end.

(** Truthiness of [string | null] and of [string | undefined]. *)
Definition truthy_opt (o : option string) : bool :=
  match o with Some s => truthy s | None => false end.

(** [!d] for [d : Date | null]: an object is truthy. *)
Definition is_null {A} (o : option A) : bool :=
  match o with None => true | Some _ => false end.

(** [a || b] on [string | undefined] operands. *)
Definition or_else (a b : option string) : option string :=
  if truthy_opt a then a else b.

(** [a || b] where [b] is a string. *)
Definition or_string (a : option string) (b : string) : string :=
  match a with
  | Some s => if truthy s then s else b
  | None => b
  end.

(** [s.startsWith(p)] *)
Definition startsWith (s p : string) : bool := String.prefix p s.

(** [s.includes(p)] *)
Fixpoint includes (s p : string) : bool :=
  String.prefix p s ||
  match s with
  | EmptyString => false
  | String _ s' => includes s' p
  end.

(** [String(n)], and [n] in a template literal, for an integer [n] (below
    the 10^21 from which JavaScript prints an exponent). *)
Definition Number_toString (n : Z) : string :=
  NilEmpty.string_of_int (Z.to_int n).

(** Template-literal interpolation of a [string | undefined]. *)
Definition interpolate (o : option string) : string :=
  match o with Some s => s | None => "undefined" end.

End JS.

Import JS.

(** ** Regular expressions

    The three patterns of [utils.ts] are anchored at both ends and use only
    character classes, concatenation, grouping, [?], [*] and [+]; [test]
    then decides membership of the whole string in the regular language. *)

Module Regex.

Inductive regex : Type :=
| Void
| Eps
| Class (p : ascii -> bool)
| Cat (r1 r2 : regex)
| Alt (r1 r2 : regex)
| Star (r : regex).

Definition Opt (r : regex) : regex := Alt Eps r.
Definition Plus (r : regex) : regex := Cat r (Star r).

(** The language of a pattern. *)
Inductive matches : regex -> string -> Prop :=
| MEps : matches Eps ""
| MClass p c : p c = true -> matches (Class p) (String c "")
| MCat r1 r2 s1 s2 :
    matches r1 s1 -> matches r2 s2 -> matches (Cat r1 r2) (s1 +:+ s2)
| MAltL r1 r2 s : matches r1 s -> matches (Alt r1 r2) s
| MAltR r1 r2 s : matches r2 s -> matches (Alt r1 r2) s
| MStarNil r : matches (Star r) ""
| MStarApp r s1 s2 :
    matches r s1 -> matches (Star r) s2 -> matches (Star r) (s1 +:+ s2).

(** Matching by derivatives. *)
Fixpoint nullable (r : regex) : bool :=
  match r with
  | Void => false
  | Eps => true
  | Class _ => false
  | Cat r1 r2 => nullable r1 && nullable r2
  | Alt r1 r2 => nullable r1 || nullable r2
  | Star _ => true
  end.

Fixpoint deriv (c : ascii) (r : regex) : regex :=
  match r with
  | Void => Void
  | Eps => Void
  | Class p => if p c then Eps else Void
  | Cat r1 r2 =>
      if nullable r1
      then Alt (Cat (deriv c r1) r2) (deriv c r2)
      else Cat (deriv c r1) r2
  | Alt r1 r2 => Alt (deriv c r1) (deriv c r2)
  | Star r1 => Cat (deriv c r1) (Star r1)
  end.

(** [/^r$/.test(s)] *)
Fixpoint test (r : regex) (s : string) : bool :=
  match s with
  | EmptyString => nullable r
  | String c s' => test (deriv c r) s'
  end.

End Regex.

(** ** Character classes *)

Module Chars.

Definition between (lo hi c : ascii) : bool :=
  ((N_of_ascii lo <=? N_of_ascii c) && (N_of_ascii c <=? N_of_ascii hi))%N.

(** [\d] and [0-9] *)
Definition digit (c : ascii) : bool := between "0" "9" c.

(** [0-9a-fA-F] *)
Definition hexdigit (c : ascii) : bool :=
  digit c || between "a" "f" c || between "A" "F" c.

(** [a-zA-Z0-9] *)
Definition alnum (c : ascii) : bool :=
  between "a" "z" c || between "A" "Z" c || digit c.

(** [a-zA-Z0-9-] *)
Definition alnum_hyphen (c : ascii) : bool :=
  alnum c || Ascii.eqb c "-".

(** [\.] *)
Definition dot (c : ascii) : bool := Ascii.eqb c ".".

(** Any character but the slash. *)
Definition not_slash (c : ascii) : bool := negb (Ascii.eqb c "/").

(** A digit or a dot. *)
Definition digit_or_dot (c : ascii) : bool := digit c || dot c.

Fixpoint all_chars (p : ascii -> bool) (s : string) : bool :=
  match s with
  | EmptyString => true
  | String c s' => p c && all_chars p s'
  end.

(** The characters the source writes with an escape. *)
Definition backslash : string := String "092" EmptyString.
Definition double_quote : string := String "034" EmptyString.

End Chars.

(** ** The library ipaddr.js

    [utils.ts] calls [ipaddr.parse] and [ipaddr.parseCIDR] of the package
    ipaddr.js, whose code is not in the repository. The validators below
    take the two functions as parameters; this module gives the model of
    them that the specification describes, for the statements about the
    library itself and for running the validators on examples. *)

Module Ipaddr.

Import Chars.

Inductive kind : Type := IPv4 | IPv6.

(** [s.split(sep)] for a one-character separator. *)
Fixpoint split (sep : ascii) (s : string) : list string :=
  match s with
  | EmptyString => [EmptyString]
  | String c s' =>
      if Ascii.eqb c sep then EmptyString :: split sep s'
      else match split sep s' with
           | h :: t => String c h :: t
           | [] => [String c EmptyString]
           end
  end.

(** The value of a string of decimal digits; [None] when the string is
    empty or holds another character. *)
Definition decimal (s : string) : option Z :=
  match s with
  | EmptyString => None
  | _ => option_map Z.of_uint (NilEmpty.uint_of_string s)
  end.

(** Modelled from the spec: the IPv4 parser of ipaddr.js is missing. An
    octet is one to three decimal digits of value at most 255 (the spec:
    rejects out-of-range octets). *)
Definition octet (s : string) : bool :=
  (String.length s <=? 3)%nat &&
  match decimal s with Some n => n <=? 255 | None => false end.

(** Modelled from the spec: the IPv4 parser of ipaddr.js is missing. An
    IPv4 literal is four octets separated by dots and nothing else (the
    spec: a syntactically valid IPv4 literal, no trailing garbage). *)
Definition isIPv4 (s : string) : bool :=
  let parts := split "." s in
  (List.length parts =? 4)%nat && forallb octet parts.

(** Modelled from the spec: the IPv6 parser of ipaddr.js is missing. A
    group is one to four hexadecimal digits. *)
Definition group (s : string) : bool :=
  (1 <=? String.length s)%nat && (String.length s <=? 4)%nat &&
  all_chars hexdigit s.

(** Modelled from the spec: the IPv6 parser of ipaddr.js is missing. The
    number of 16-bit groups that a list of colon-separated parts denotes,
    when each part is a group; with [v4_tail] the last part may be an IPv4
    literal, which stands for two groups. *)
Fixpoint groups (v4_tail : bool) (parts : list string) : option nat :=
  match parts with
  | [] => Some 0%nat
  | [p] => if group p then Some 1%nat
           else if v4_tail && isIPv4 p then Some 2%nat else None
  | p :: rest =>
      if group p then option_map S (groups v4_tail rest) else None
  end.

(** Modelled from the spec: the IPv6 parser of ipaddr.js is missing. The
    text before and after the first double colon, if there is one. *)
Fixpoint cut_compression (s : string) : option (string * string) :=
  match s with
  | EmptyString => None
  | String c s' =>
      match s' with
      | EmptyString => None
      | String d r =>
          if Ascii.eqb c ":" && Ascii.eqb d ":" then Some (EmptyString, r)
          else option_map (fun lr => (String c (fst lr), snd lr))
                          (cut_compression s')
      end
  end.

(** Modelled from the spec: the IPv6 parser of ipaddr.js is missing. The
    groups on one side of a double colon; a side may be empty. *)
Definition side (v4_tail : bool) (s : string) : option nat :=
  match s with
  | EmptyString => Some 0%nat
  | _ => groups v4_tail (split ":" s)
  end.

(** Modelled from the spec: the IPv6 parser of ipaddr.js is missing. An
    IPv6 literal is eight groups separated by colons, where one run of
    groups may be compressed to a double colon and the last two groups may
    be written as an IPv4 literal (the spec: a syntactically valid IPv6
    literal, rejecting malformed compression and trailing garbage). *)
Definition isIPv6 (s : string) : bool :=
  match cut_compression s with
  | None =>
      match groups true (split ":" s) with
      | Some n => (n =? 8)%nat
      | None => false
      end
  | Some (l, r) =>
      match cut_compression r, side false l, side true r with
      | None, Some n, Some m => (n + m <=? 7)%nat
      | _, _, _ => false
      end
  end.

(** Modelled from the spec: [ipaddr.parse] is missing. It succeeds when
    its argument is a valid IPv4 or IPv6 literal and throws otherwise; the
    result is reduced to the kind of the address, and [None] stands for
    the exception. *)
Definition parse (s : string) : option kind :=
  if isIPv6 s then Some IPv6
  else if isIPv4 s then Some IPv4
  else None.

(** Modelled from the spec: [ipaddr.parseCIDR] is missing. The text
    before and after the last slash, if there is one. *)
Fixpoint cut_prefix_length (s : string) : option (string * string) :=
  match s with
  | EmptyString => None
  | String c s' =>
      match cut_prefix_length s' with
      | Some (ip, len) => Some (String c ip, len)
      | None => if Ascii.eqb c "/" then Some (EmptyString, s') else None
      end
  end.

(** Modelled from the spec: [ipaddr.parseCIDR] is missing. The largest
    prefix length of each kind of address. *)
Definition max_prefix (k : kind) : Z :=
  match k with IPv4 => 32 | IPv6 => 128 end.

(** Modelled from the spec: [ipaddr.parseCIDR] is missing. It succeeds
    when its argument is an IP literal, a slash and a decimal prefix
    length, the IP part is valid and the prefix is within 0..32 for IPv4
    or 0..128 for IPv6, and throws otherwise. *)
Definition parseCIDR (s : string) : option (kind * Z) :=
  match cut_prefix_length s with
  | Some (ip, len) =>
      match parse ip, decimal len with
      | Some k, Some n =>
          if (0 <=? n) && (n <=? max_prefix k) then Some (k, n) else None
      | _, _ => None
      end
  | None => None
  end.

End Ipaddr.

(** ** src/utils.ts: the validators *)

Module Utils.

Import Chars Regex.

(** A hostname label, [[a-zA-Z0-9]([a-zA-Z0-9-]*[a-zA-Z0-9])?]. *)
Definition label : regex :=
  Cat (Class alnum) (Opt (Cat (Star (Class alnum_hyphen)) (Class alnum))).

(** [VALID_HOSTNAME_PATTERN]: a label, then any number of a dot and a
    label, between [^] and [$]. *)
Definition VALID_HOSTNAME_PATTERN : regex :=
  Cat label (Star (Cat (Class dot) label)).

(** The pattern of [looksLikeIPv4], [/^\d+(\.\d+)*$/]. *)
Definition LOOKS_LIKE_IPV4 : regex :=
  Cat (Plus (Class digit)) (Star (Cat (Class dot) (Plus (Class digit)))).

Definition DANGEROUS_CHARS : list string :=
  [";"; "&"; "|"; "`"; "$"; "("; ")"; "{"; "}"; "["; "]"; "<"; ">";
   backslash; "'"; double_quote].

Definition DANGEROUS_CHARS_BASIC : list string :=
  [";"; "&"; "|"; "`"; "$"; "("; ")"; "{"; "}"; "<"; ">"; backslash].

Section WithIpaddr.

(** The two entry points of ipaddr.js that [utils.ts] calls; [None] stands
    for the exception the library throws on a malformed input. *)
Context {address : Type}.
Variable ipaddr_parse : string -> option address.
Variable ipaddr_parseCIDR : string -> option (address * Z).

Definition isValidIPAddress (ip : string) : bool :=
  match ipaddr_parse ip with
  | Some _ => true
  | None => false
  end.

Definition isValidCIDR (cidr : string) : bool :=
  match ipaddr_parseCIDR cidr with
  | Some _ => true
  | None => false
  end.

(** The loop [for (const char of chars) if (s.includes(char)) throw]:
    the first listed character that occurs in [s]. *)
Definition first_included (chars : list string) (s : string) : option string :=
  List.find (includes s) chars.

Definition validateTarget (target : value) : completion unit :=
  match target with
  | VString target =>
      if negb (truthy target) then Thrown (Error "Invalid target specified")
      else
        match first_included DANGEROUS_CHARS target with
        | Some char =>
            Thrown (Error ("Invalid character '" +:+ char +:+ "' in target"))
        | None =>
            if includes target ".." || startsWith target "/"
               || includes target "~"
            then Thrown (Error "Target contains invalid characters or format")
            else if (253 <? String.length target)%nat
            then Thrown (Error "Target too long")
            else if isValidIPAddress target then Returned tt
            else if test LOOKS_LIKE_IPV4 target
            then Thrown (Error "Invalid IPv4 address format")
            else if includes target ":"
            then Thrown (Error "Invalid IPv6 address format")
            else if negb (test VALID_HOSTNAME_PATTERN target)
            then Thrown (Error "Target must be a valid IP address or hostname")
            else Returned tt
        end
  | _ => Thrown (Error "Invalid target specified")
  end.

Definition validateStringInput (input : value) (fieldName : string)
  : completion unit :=
  match input with
  | VString input =>
      match first_included DANGEROUS_CHARS_BASIC input with
      | Some char =>
          Thrown (Error ("Invalid character '" +:+ char +:+ "' in "
                         +:+ fieldName))
      | None =>
          if (1000 <? String.length input)%nat
          then Thrown (Error (fieldName +:+ " too long"))
          else Returned tt
      end
  | _ => Thrown (TypeError (fieldName +:+ " must be a string"))
  end.

(** The body of [for (const route of routes)]. *)
Fixpoint validateRoutes_loop (routes : list value) : completion unit :=
  match routes with
  | [] => Returned tt
  | route :: rest =>
      match route with
      | VString route =>
          if negb (isValidCIDR route)
          then Thrown (Error ("Invalid CIDR format: " +:+ route))
          else validateRoutes_loop rest
      | _ => Thrown (TypeError "Each route must be a string")
      end
  end.

Definition validateRoutes (routes : value) : completion unit :=
  match routes with
  | VArray routes => validateRoutes_loop routes
  | _ => Thrown (TypeError "Routes must be an array")
  end.

End WithIpaddr.

End Utils.

(** ** src/tailscale/oauth.ts: the credential manager *)

Module OAuth.

(** The body of a successful token response. *)
Record OAuthTokenResponse : Type := {
  access_token : string;
  token_type : string;
  expires_in : Z;
  scope : option string
}.

(** An optional property of an object literal: the key is absent, or it is
    present and holds a value or [undefined]. *)
Inductive property (A : Type) : Type :=
| Absent
| Present (v : option A).

Arguments Absent {A}.
Arguments Present {A} v.

Record OAuthConfig : Type := {
  clientId : string;
  clientSecret : string;
  baseUrl : property string
}.

(** The field [config], declared [Required<OAuthConfig>]; at run time
    [baseUrl] holds whatever the spread left there, [None] being
    [undefined]. *)
Record Config : Type := {
  config_clientId : string;
  config_clientSecret : string;
  config_baseUrl : option string
}.

(** The object literal with [baseUrl] first and [...config] spread over
    it: every own property of [config] overwrites the one before it, a
    property that holds [undefined] included. *)
Definition spread_over_default (cfg : OAuthConfig) : Config :=
  {| config_clientId := clientId cfg;
     config_clientSecret := clientSecret cfg;
     config_baseUrl :=
       match baseUrl cfg with
       | Absent => Some "https://api.tailscale.com"
       | Present v => v
       end |}.

Record TailscaleOAuthManager : Type := {
  config : Config;
  accessToken : option string;
  tokenExpiry : option Z
}.

(** Buffer time in seconds before token expiry. *)
Definition expiryBuffer : Z := 60.

Definition constructor (cfg : OAuthConfig) : completion TailscaleOAuthManager :=
  let config := spread_over_default cfg in
  if negb (truthy (config_clientId config))
     || negb (truthy (config_clientSecret config))
  then Thrown (Error
         "OAuth client ID and secret are required for OAuth authentication")
  else Returned {| config := config; accessToken := None; tokenExpiry := None |}.

(** *** The token request and its outcomes *)

(** The arguments of [axios.post]: the URL, the fields given to
    [URLSearchParams], the content type and the timeout. *)
Record HttpRequest : Type := {
  url : string;
  form : list (string * string);
  content_type : string;
  timeout : Z
}.

(** [error.response?.data] of a rejected request, as far as the source
    reads it. *)
Record ErrorData : Type := {
  error_description : option string;
  error : option string
}.

Record AxiosError : Type := {
  response_data : option ErrorData;
  message : string
}.

(** How the awaited [axios.post] settles: with a response, with an
    [AxiosError], or with another exception. *)
Inductive HttpOutcome : Type :=
| Resolved (data : OAuthTokenResponse)
| RejectedAxios (e : AxiosError)
| Rejected (e : exn).

(** A call of an [async] method: it completes without awaiting, or it
    issues one request and resumes, when the request has settled, on the
    state the manager then has, with a new reading of the clock. *)
Inductive async (A : Type) : Type :=
| Sync (r : completion A) (m : TailscaleOAuthManager)
| Await (req : HttpRequest)
        (resume : HttpOutcome -> Z -> TailscaleOAuthManager ->
                  completion A * TailscaleOAuthManager).

Arguments Sync {A} r m.
Arguments Await {A} req resume.

Definition token_request (c : Config) : HttpRequest :=
  {| url := interpolate (config_baseUrl c) +:+ "/api/v2/oauth/token";
     form := [("client_id", config_clientId c);
              ("client_secret", config_clientSecret c)];
     content_type := "application/x-www-form-urlencoded";
     timeout := 30000 |}.

(** The time values a [Date] can hold; [toISOString] throws a
    [RangeError] on any other. *)
Definition valid_time (t : Z) : bool := Z.abs t <=? 8640000000000000.

Definition clear (m : TailscaleOAuthManager) : TailscaleOAuthManager :=
  {| config := config m; accessToken := None; tokenExpiry := None |}.

(** [errorData?.error_description] and [errorData?.error], where
    [errorData] is [error.response?.data]. *)
Definition data_error_description (e : AxiosError) : option string :=
  match response_data e with
  | Some errorData => error_description errorData
  | None => None
  end.

Definition data_error (e : AxiosError) : option string :=
  match response_data e with
  | Some errorData => error errorData
  | None => None
  end.

(** The chain of [||] that the [catch] block assigns to [errorMsg]. *)
Definition errorMsg (e : AxiosError) : string :=
  or_string
    (or_else (or_else (data_error_description e) (data_error e))
             (Some (message e)))
    "Failed to obtain OAuth token".

(** [refreshToken] after the [await]; [now] is [Date.now()]. On a response
    the two fields are assigned and the expiry is formatted for the log:
    [toISOString] throws on an invalid date, inside the [try], so that the
    [catch] block clears the fields and throws the [RangeError] again. *)
Definition refreshToken_resume (out : HttpOutcome) (now : Z)
    (m : TailscaleOAuthManager) : completion string * TailscaleOAuthManager :=
  match out with
  | Resolved data =>
      let expiry := now + expires_in data * 1000 in
      if valid_time expiry
      then (Returned (access_token data),
            {| config := config m;
               accessToken := Some (access_token data);
               tokenExpiry := Some expiry |})
      else (Thrown (RangeError "Invalid time value"), clear m)
  | RejectedAxios e =>
      (Thrown (Error ("OAuth authentication failed: " +:+ errorMsg e)),
       clear m)
  | Rejected e => (Thrown e, clear m)
  end.

Definition refreshToken (m : TailscaleOAuthManager) : async string :=
  Await (token_request (config m)) refreshToken_resume.

(** [now] is the time of [new Date()]. *)
Definition isTokenValid (m : TailscaleOAuthManager) (now : Z) : bool :=
  if negb (truthy_opt (accessToken m)) || is_null (tokenExpiry m)
  then false
  else
    match tokenExpiry m with
    | Some expiry => expiryBuffer * 1000 <? expiry - now
    | None => false
    end.

Definition getAccessToken (m : TailscaleOAuthManager) (now : Z) : async string :=
  if isTokenValid m now then
    match accessToken m with
    | Some token =>
        if negb (truthy token)
        then Sync (Thrown (Error "Access token is null")) m
        else Sync (Returned token) m
    | None => Sync (Thrown (Error "Access token is null")) m
    end
  else refreshToken m.

Definition invalidateToken (m : TailscaleOAuthManager) : TailscaleOAuthManager :=
  clear m.

(** *** Discovery from the environment; [process.env] is a finite map. *)

Definition isConfigured (env : gmap string string) : bool :=
  truthy_opt (env !! "TAILSCALE_OAUTH_CLIENT_ID")
  && truthy_opt (env !! "TAILSCALE_OAUTH_CLIENT_SECRET").

Definition fromEnvironment (env : gmap string string)
  : completion (option TailscaleOAuthManager) :=
  match env !! "TAILSCALE_OAUTH_CLIENT_ID",
        env !! "TAILSCALE_OAUTH_CLIENT_SECRET" with
  | Some id, Some secret =>
      if negb (truthy id) || negb (truthy secret) then Returned None
      else
        match constructor {| clientId := id;
                             clientSecret := secret;
                             baseUrl := Present (env !! "TAILSCALE_API_BASE_URL") |}
        with
        | Returned m => Returned (Some m)
        | Thrown e => Thrown e
        end
  | _, _ => Returned None
  end.

(** *** The states a manager goes through *)

Inductive reachable : TailscaleOAuthManager -> Prop :=
| reach_constructor cfg m :
    constructor cfg = Returned m -> reachable m
| reach_sync m now r m' :
    reachable m -> getAccessToken m now = Sync r m' -> reachable m'
| reach_resume m0 now req resume m out now' :
    reachable m0 -> getAccessToken m0 now = Await req resume ->
    reachable m -> config m = config m0 ->
    reachable (snd (resume out now' m))
| reach_invalidate m :
    reachable m -> reachable (invalidateToken m).

(** The token and the expiry are null together. *)
Definition both_or_neither (m : TailscaleOAuthManager) : Prop :=
  (accessToken m = None /\ tokenExpiry m = None)
  \/ (exists token expiry,
        accessToken m = Some token /\ tokenExpiry m = Some expiry).

(** *** Managers used as examples *)

Definition credentials : OAuthConfig :=
  {| clientId := "id"; clientSecret := "secret"; baseUrl := Absent |}.

(** A manager built from [credentials] that holds the given token and
    expiry. *)
Definition holding (token : option string) (expiry : option Z)
  : TailscaleOAuthManager :=
  {| config := spread_over_default credentials;
     accessToken := token;
     tokenExpiry := expiry |}.

End OAuth.

(** ** The shape of the strings the patterns accept

    The words of the two patterns of [validateTarget], described part by
    part, and the legacy pattern for CIDR strings that [utils.ts] still
    exports. *)

Module Shapes.

Import Chars Regex.

Fixpoint last_char (s : string) : option ascii :=
  match s with
  | EmptyString => None
  | String c s' =>
      match last_char s' with
      | Some d => Some d
      | None => Some c
      end
  end.

(** A label: letters, digits and hyphens, at least one character, a
    letter or a digit at both ends. *)
Definition is_label (l : string) : bool :=
  match l with
  | EmptyString => false
  | String c rest =>
      alnum c && all_chars alnum_hyphen rest &&
      match last_char rest with
      | Some d => alnum d
      | None => true
      end
  end.

(** At least one character, digits only. *)
Definition is_number (l : string) : bool :=
  truthy l && all_chars digit l.

(** The parts joined again with dots, the inverse of splitting at the
    dots. *)
Fixpoint join_dots (h : string) (parts : list string) : string :=
  match parts with
  | [] => h
  | p :: rest => h +:+ "." +:+ join_dots p rest
  end.

(** The characters of every word of a pattern satisfy [q] when those of
    its classes do. *)
Fixpoint alphabet_within (q : ascii -> bool) (r : regex) : Prop :=
  match r with
  | Void | Eps => True
  | Class p => forall c, p c = true -> q c = true
  | Cat r1 r2 | Alt r1 r2 => alphabet_within q r1 /\ alphabet_within q r2
  | Star r1 => alphabet_within q r1
  end.

(** A string without a dot. *)
Definition no_dot (w : string) : Prop :=
  all_chars (fun c => negb (dot c)) w = true.

(** A listed character that is a single character outside the hostname
    alphabet. *)
Definition outside_hostname_alphabet (c : string) : bool :=
  match c with
  | String x EmptyString => negb (alnum_hyphen x || dot x)
  | _ => false
  end.

(** [r{n}] and [r{0,n}] *)
Fixpoint exactly (n : nat) (r : regex) : regex :=
  match n with
  | O => Eps
  | S k => Cat r (exactly k r)
  end.

Fixpoint at_most (n : nat) (r : regex) : regex :=
  match n with
  | O => Eps
  | S k => Opt (Cat r (at_most k r))
  end.

(** [r{lo,hi}], for [lo <= hi] *)
Definition between_times (lo hi : nat) (r : regex) : regex :=
  Cat (exactly lo r) (at_most (hi - lo) r).

(** [[0-9a-fA-F:]] *)
Definition hexdigit_or_colon (c : ascii) : bool :=
  hexdigit c || Ascii.eqb c ":".

(** [\/] *)
Definition slash (c : ascii) : bool := Ascii.eqb c "/".

(** Between [lo] and [hi] characters, digits only. *)
Definition digits_of_length (lo hi : nat) (s : string) : bool :=
  (lo <=? String.length s)%nat && (String.length s <=? hi)%nat
  && all_chars digit s.

(** [CIDR_PATTERN]: three times one to three digits and a dot, one to
    three digits, a slash, one or two digits; or hexadecimal digits and
    colons, a slash, one to three digits. Each alternative has its own [^]
    and [$]. *)
Definition CIDR_PATTERN : regex :=
  Alt (Cat (exactly 3 (Cat (between_times 1 3 (Class digit)) (Class dot)))
           (Cat (between_times 1 3 (Class digit))
                (Cat (Class slash) (between_times 1 2 (Class digit)))))
      (Cat (Plus (Class hexdigit_or_colon))
           (Cat (Class slash) (between_times 1 3 (Class digit)))).

End Shapes.

(** * Properties *)

(** ** The derivative matcher decides the language *)

Module RegexFacts.

Import Regex.

Lemma append_nil_r (s : string) : s +:+ "" = s.
Proof. induction s as [|c s IH]; simpl; [reflexivity | now rewrite IH]. Qed.

Lemma append_eq_nil (s1 s2 : string) :
  s1 +:+ s2 = "" -> s1 = "" /\ s2 = "".
Proof. destruct s1; simpl; [auto | discriminate]. Qed.

Lemma append_eq_cons (s1 s2 : string) c s :
  s1 +:+ s2 = String c s ->
  (s1 = "" /\ s2 = String c s) \/
  (exists s1', s1 = String c s1' /\ s = s1' +:+ s2).
Proof.
  destruct s1 as [|d s1]; simpl; intros H.
  - left; auto.
  - right. injection H as -> <-. eauto.
Qed.

Lemma append_assoc (s1 s2 s3 : string) :
  (s1 +:+ s2) +:+ s3 = s1 +:+ (s2 +:+ s3).
Proof. induction s1 as [|c s1 IH]; simpl; [reflexivity | now rewrite IH]. Qed.

Lemma matches_Cat_inv r1 r2 s :
  matches (Cat r1 r2) s ->
  exists s1 s2, s = s1 +:+ s2 /\ matches r1 s1 /\ matches r2 s2.
Proof. inversion 1; subst; eauto. Qed.

Lemma matches_Alt_inv r1 r2 s :
  matches (Alt r1 r2) s -> matches r1 s \/ matches r2 s.
Proof. inversion 1; subst; auto. Qed.

Lemma matches_Class_inv p s :
  matches (Class p) s -> exists c, s = String c "" /\ p c = true.
Proof. inversion 1; subst; eauto. Qed.

Lemma nullable_spec r : nullable r = true <-> matches r "".
Proof.
  induction r as [| |p|r1 IH1 r2 IH2|r1 IH1 r2 IH2|r IH]; simpl.
  - split; [discriminate | inversion 1].
  - split; [constructor | reflexivity].
  - split; [discriminate | inversion 1].
  - rewrite andb_true_iff, IH1, IH2. split.
    + intros [H1 H2]. exact (MCat _ _ "" "" H1 H2).
    + intros H. apply matches_Cat_inv in H as (s1 & s2 & E & H1 & H2).
      symmetry in E. apply append_eq_nil in E as [-> ->]. auto.
  - rewrite orb_true_iff, IH1, IH2. split.
    + intros [H|H]; [now apply MAltL | now apply MAltR].
    + apply matches_Alt_inv.
  - split; [constructor | reflexivity].
Qed.

(** A word of [r*] that starts with [c] starts with a word of [r] that
    starts with [c]. *)
Lemma matches_Star_cons r c s :
  matches (Star r) (String c s) ->
  exists s1 s2,
    s = s1 +:+ s2 /\ matches r (String c s1) /\ matches (Star r) s2.
Proof.
  intros H. remember (Star r) as r' eqn:Er. remember (String c s) as w eqn:Ew.
  revert c s Ew.
  induction H as [| | | | | |r0 s1 s2 H1 _ H2 IH2]; try discriminate.
  injection Er as ->. intros c s Ew.
  apply append_eq_cons in Ew as [[-> ->]|(s1' & -> & ->)].
  - now apply IH2.
  - eauto.
Qed.

Lemma deriv_spec c r s : matches (deriv c r) s <-> matches r (String c s).
Proof.
  revert s.
  induction r as [| |p|r1 IH1 r2 IH2|r1 IH1 r2 IH2|r IH]; simpl; intros s.
  - split; inversion 1.
  - split; inversion 1.
  - split.
    + destruct (p c) eqn:Ep; inversion 1; subst. now constructor.
    + intros H. apply matches_Class_inv in H as (d & E & Hd).
      injection E as <- ->. rewrite Hd. constructor.
  - assert (Hcat : forall s', matches (Cat (deriv c r1) r2) s' ->
                              matches (Cat r1 r2) (String c s')).
    { intros s' H. apply matches_Cat_inv in H as (s1 & s2 & -> & H1 & H2).
      apply IH1 in H1. exact (MCat _ _ _ _ H1 H2). }
    split.
    + destruct (nullable r1) eqn:En; [|now apply Hcat].
      intros H. apply matches_Alt_inv in H as [H|H]; [now apply Hcat|].
      apply IH2 in H. apply nullable_spec in En.
      exact (MCat _ _ "" _ En H).
    + intros H. apply matches_Cat_inv in H as (s1 & s2 & E & H1 & H2).
      symmetry in E. apply append_eq_cons in E as [[-> ->]|(s1' & -> & ->)].
      * apply nullable_spec in H1 as ->. apply MAltR. now apply IH2.
      * apply IH1 in H1.
        destruct (nullable r1); [apply MAltL|]; now constructor.
  - split.
    + intros H. apply matches_Alt_inv in H as [H|H];
        [apply MAltL, IH1 | apply MAltR, IH2]; exact H.
    + intros H. apply matches_Alt_inv in H as [H|H];
        [apply MAltL, IH1 | apply MAltR, IH2]; exact H.
  - split.
    + intros H. apply matches_Cat_inv in H as (s1 & s2 & -> & H1 & H2).
      apply IH in H1. exact (MStarApp _ _ _ H1 H2).
    + intros H. apply matches_Star_cons in H as (s1 & s2 & -> & H1 & H2).
      apply IH in H1. now constructor.
Qed.

Lemma test_spec r s : test r s = true <-> matches r s.
Proof.
  revert r. induction s as [|c s IH]; intros r; simpl.
  - apply nullable_spec.
  - rewrite IH. apply deriv_spec.
Qed.

End RegexFacts.

(** ** Strings and character classes *)

Module StringFacts.

Import Chars Regex RegexFacts.

Lemma all_chars_app p s1 s2 :
  all_chars p (s1 +:+ s2) = all_chars p s1 && all_chars p s2.
Proof.
  induction s1 as [|c s1 IH]; simpl; [reflexivity|].
  now rewrite IH, andb_assoc.
Qed.

Lemma all_chars_weaken (p q : ascii -> bool) s :
  (forall c, p c = true -> q c = true) ->
  all_chars p s = true -> all_chars q s = true.
Proof.
  intros Hpq. induction s as [|c s IH]; simpl; [reflexivity|].
  rewrite !andb_true_iff. intros [Hc Hs]. auto.
Qed.

Lemma all_chars_both (p q : ascii -> bool) s :
  all_chars p s = true -> all_chars q s = true ->
  all_chars (fun c => p c && q c) s = true.
Proof.
  induction s as [|c s IH]; simpl; [reflexivity|].
  rewrite !andb_true_iff. intros [Hc Hs] [Hc' Hs']. auto.
Qed.

(** The words of [[p]*] are the strings of characters in [p]. *)
Lemma matches_Star_Class p s :
  matches (Star (Class p)) s -> all_chars p s = true.
Proof.
  intros H. remember (Star (Class p)) as r eqn:Er.
  induction H as [| | | | | |r0 s1 s2 H1 _ _ IH2]; try discriminate.
  - reflexivity.
  - injection Er as ->. rewrite all_chars_app, (IH2 eq_refl), andb_true_r.
    apply matches_Class_inv in H1 as (c & -> & Hc). simpl. now rewrite Hc.
Qed.

Lemma Plus_Class_intro p s :
  s <> EmptyString -> all_chars p s = true -> matches (Plus (Class p)) s.
Proof.
  destruct s as [|c s]; [congruence|]. intros _. simpl.
  rewrite andb_true_iff. intros [Hc Hs].
  change (String c s) with (String c EmptyString +:+ s).
  apply MCat; [now constructor|].
  clear c Hc. induction s as [|c s IH]; [constructor|].
  simpl in Hs. apply andb_true_iff in Hs as [Hc Hs].
  change (String c s) with (String c EmptyString +:+ s).
  apply MStarApp; [now constructor | auto].
Qed.

(** Replacing the body of a star by a pattern that accepts at least the
    same words among those satisfying [P], a property inherited by the
    two parts of a concatenation. *)
Lemma matches_Star_mono (P : string -> Prop) r r' :
  (forall s1 s2, P (s1 +:+ s2) -> P s1 /\ P s2) ->
  (forall s, P s -> matches r s -> matches r' s) ->
  forall s, P s -> matches (Star r) s -> matches (Star r') s.
Proof.
  intros Hsplit Hincl s HP H. remember (Star r) as r0 eqn:Er.
  induction H as [| | | | | |r1 s1 s2 H1 _ H2 IH2]; try discriminate.
  - constructor.
  - injection Er as ->. apply Hsplit in HP as [HP1 HP2].
    apply MStarApp; auto.
Qed.

Lemma includes_nil_l p : includes EmptyString p = true -> p = EmptyString.
Proof. destruct p; simpl; [reflexivity | discriminate]. Qed.

Lemma includes_truthy s p :
  truthy p = true -> includes s p = true -> truthy s = true.
Proof.
  destruct s; [|reflexivity].
  intros Hp H. apply includes_nil_l in H. subst p. discriminate.
Qed.

End StringFacts.

(** ** The validators of src/utils.ts *)

Module UtilsFacts.

Import Chars Regex RegexFacts StringFacts Utils.

Lemma dot_not_alnum_hyphen c :
  alnum_hyphen c = true -> digit_or_dot c = true -> digit c = true.
Proof.
  unfold digit_or_dot. intros Ha Hd.
  apply orb_true_iff in Hd as [Hd|Hd]; [exact Hd|].
  apply Ascii.eqb_eq in Hd. subst c. discriminate Ha.
Qed.

Lemma alnum_is_alnum_hyphen c : alnum c = true -> alnum_hyphen c = true.
Proof. unfold alnum_hyphen. now intros ->. Qed.

(** A label is a non-empty string of letters, digits and hyphens. *)
Lemma label_chars s :
  matches label s -> s <> EmptyString /\ all_chars alnum_hyphen s = true.
Proof.
  unfold label, Opt. intros H.
  apply matches_Cat_inv in H as (s1 & s2 & -> & H1 & H2).
  apply matches_Class_inv in H1 as (c & -> & Hc). simpl.
  split; [discriminate|].
  rewrite (alnum_is_alnum_hyphen _ Hc). simpl.
  apply matches_Alt_inv in H2 as [H2|H2].
  - inversion H2. reflexivity.
  - apply matches_Cat_inv in H2 as (t & u & -> & Ht & Hu).
    apply matches_Star_Class in Ht.
    apply matches_Class_inv in Hu as (d & -> & Hd).
    rewrite all_chars_app, Ht. simpl.
    now rewrite (alnum_is_alnum_hyphen _ Hd).
Qed.

Lemma label_of_digits s :
  all_chars digit_or_dot s = true -> matches label s ->
  matches (Plus (Class digit)) s.
Proof.
  intros Hd H. apply label_chars in H as [Hne Ha].
  apply Plus_Class_intro; [exact Hne|].
  apply (all_chars_weaken (fun c => alnum_hyphen c && digit_or_dot c)).
  - intros c Hc. apply andb_true_iff in Hc as [H1 H2].
    now apply dot_not_alnum_hyphen.
  - now apply all_chars_both.
Qed.

Lemma all_chars_split p s1 s2 :
  all_chars p (s1 +:+ s2) = true ->
  all_chars p s1 = true /\ all_chars p s2 = true.
Proof. rewrite all_chars_app. apply andb_true_iff. Qed.

(** A hostname made of digits and dots only matches the pattern of
    [looksLikeIPv4]. *)
Lemma hostname_of_digits_looks_like_IPv4 s :
  all_chars digit_or_dot s = true ->
  test VALID_HOSTNAME_PATTERN s = true -> test LOOKS_LIKE_IPV4 s = true.
Proof.
  rewrite !test_spec. unfold VALID_HOSTNAME_PATTERN, LOOKS_LIKE_IPV4.
  intros Hd H. apply matches_Cat_inv in H as (s1 & s2 & -> & H1 & H2).
  apply all_chars_split in Hd as [Hd1 Hd2].
  apply MCat; [now apply label_of_digits|].
  revert H2. apply (matches_Star_mono (fun s => all_chars digit_or_dot s = true));
    [apply all_chars_split| |exact Hd2].
  intros s Hs H. apply matches_Cat_inv in H as (t & u & -> & Ht & Hu).
  apply all_chars_split in Hs as [_ Hu'].
  apply MCat; [exact Ht | now apply label_of_digits].
Qed.

Lemma DANGEROUS_CHARS_truthy c : In c DANGEROUS_CHARS -> truthy c = true.
Proof.
  revert c. apply forallb_forall. reflexivity.
Qed.

Lemma BASIC_in_DANGEROUS_CHARS c :
  In c DANGEROUS_CHARS_BASIC -> In c DANGEROUS_CHARS.
Proof.
  unfold DANGEROUS_CHARS_BASIC, DANGEROUS_CHARS. simpl. intuition.
Qed.

(** The loop over a list of characters stops at a listed character that
    occurs in the string, whenever there is one. *)
Lemma first_included_some chars s c :
  In c chars -> includes s c = true ->
  exists c', first_included chars s = Some c'
             /\ In c' chars /\ includes s c' = true.
Proof.
  intros Hin Hc. unfold first_included.
  destruct (find (includes s) chars) as [c'|] eqn:E.
  - exists c'. apply find_some in E as [? ?]. auto.
  - apply (find_none _ _ E) in Hin. congruence.
Qed.

Section WithIpaddr.

Context {address : Type}.
Variable ipaddr_parse : string -> option address.
Variable ipaddr_parseCIDR : string -> option (address * Z).

(** Valid CIDR strings at the head of the array are passed over. *)
Lemma validateRoutes_loop_valid_prefix rs rest :
  forallb (isValidCIDR ipaddr_parseCIDR) rs = true ->
  validateRoutes_loop ipaddr_parseCIDR (map VString rs ++ rest)
  = validateRoutes_loop ipaddr_parseCIDR rest.
Proof.
  induction rs as [|r rs IH]; simpl; [reflexivity|].
  intros H. apply andb_true_iff in H as [Hr Hrs].
  rewrite Hr. simpl. auto.
Qed.

End WithIpaddr.

End UtilsFacts.

(** ** The model of ipaddr.js *)

Module IpaddrFacts.

Import Chars Ipaddr.

Lemma cut_prefix_length_no_slash s :
  all_chars not_slash s = true -> cut_prefix_length s = None.
Proof.
  induction s as [|c s IH]; simpl; [reflexivity|].
  unfold not_slash at 1. intros H. apply andb_true_iff in H as [Hc Hs].
  rewrite (IH Hs). now apply negb_true_iff in Hc as ->.
Qed.

(** The text is cut at its last slash. *)
Lemma cut_prefix_length_app ip len :
  all_chars not_slash len = true ->
  cut_prefix_length (ip +:+ "/" +:+ len) = Some (ip, len).
Proof.
  intros H. induction ip as [|c ip IH]; simpl in *.
  - now rewrite (cut_prefix_length_no_slash _ H).
  - now rewrite IH.
Qed.

Lemma cut_prefix_length_some s ip len :
  cut_prefix_length s = Some (ip, len) -> s = ip +:+ "/" +:+ len.
Proof.
  revert ip. induction s as [|c s IH]; simpl; intros ip; [discriminate|].
  destruct (cut_prefix_length s) as [[ip' len']|].
  - intros [= <- <-]. simpl. now rewrite (IH ip' eq_refl).
  - destruct (Ascii.eqb c "/") eqn:Ec; [|discriminate].
    apply Ascii.eqb_eq in Ec as ->. now intros [= <- <-].
Qed.

Lemma string_of_uint_digits d :
  all_chars digit (NilEmpty.string_of_uint d) = true.
Proof. induction d; simpl; auto. Qed.

Lemma Number_toString_no_slash n :
  all_chars not_slash (Number_toString n) = true.
Proof.
  assert (H : forall d, all_chars not_slash (NilEmpty.string_of_uint d) = true).
  { intros d. apply (StringFacts.all_chars_weaken digit);
      [|apply string_of_uint_digits].
    intros c Hc. unfold not_slash. apply negb_true_iff.
    destruct (Ascii.eqb c "/") eqn:E; [|reflexivity].
    apply Ascii.eqb_eq in E. subst c. discriminate Hc. }
  unfold Number_toString. destruct (Z.to_int n); simpl; auto.
Qed.

Lemma to_uint_not_Nil p : Pos.to_uint p <> Decimal.Nil.
Proof.
  intros E. pose proof (DecimalPos.Unsigned.of_to p) as H.
  rewrite E in H. discriminate H.
Qed.

(** Reading back the decimal writing of an integer: a negative one starts
    with a minus sign, which is no digit. *)
Lemma decimal_Number_toString n :
  decimal (Number_toString n) = if 0 <=? n then Some n else None.
Proof.
  unfold Number_toString, decimal. destruct n as [|p|p]; simpl.
  - reflexivity.
  - pose proof (to_uint_not_Nil p) as Hnil.
    destruct (NilEmpty.string_of_uint (Pos.to_uint p)) eqn:E.
    + destruct (Pos.to_uint p); discriminate || congruence.
    + rewrite <- E, NilEmpty.usu. simpl. unfold Z.of_uint.
      now rewrite DecimalPos.Unsigned.of_to.
  - now destruct (NilEmpty.uint_of_string _).
Qed.

End IpaddrFacts.

(** ** The credential manager of src/tailscale/oauth.ts *)

Module OAuthFacts.

Import OAuth.

Lemma truthy_iff s : truthy s = true <-> s <> EmptyString.
Proof. destruct s; simpl; split; congruence. Qed.

(** [isTokenValid] holds exactly when a non-empty token is cached and
    more than the buffer remains before its expiry. *)
Lemma isTokenValid_true m now :
  isTokenValid m now = true <->
  exists token expiry,
    accessToken m = Some token /\ token <> EmptyString
    /\ tokenExpiry m = Some expiry /\ now + 60 * 1000 < expiry.
Proof.
  unfold isTokenValid, expiryBuffer.
  destruct (accessToken m) as [token|]; simpl.
  - destruct (tokenExpiry m) as [expiry|]; simpl.
    + destruct token as [|c token]; simpl.
      * split; [discriminate|]. intros (? & ? & [= <-] & ? & _). congruence.
      * rewrite Z.ltb_lt. split.
        -- intros H. exists (String c token), expiry.
           repeat split; [discriminate | lia].
        -- intros (? & ? & _ & _ & [= <-] & H). lia.
    + rewrite orb_true_r. split; [discriminate|].
      intros (? & ? & _ & _ & [=] & _).
  - split; [discriminate|]. intros (? & ? & [=] & _).
Qed.

(** A call that does not await leaves the manager as it was. *)
Lemma getAccessToken_Sync m now r m' :
  getAccessToken m now = Sync r m' -> m' = m.
Proof.
  unfold getAccessToken, refreshToken.
  destruct (isTokenValid m now); [|discriminate].
  destruct (accessToken m) as [token|].
  - destruct (negb (truthy token)); now intros [= _ <-].
  - now intros [= _ <-].
Qed.

(** A call that awaits has issued the token request and resumes in
    [refreshToken]. *)
Lemma getAccessToken_Await m now req resume :
  getAccessToken m now = Await req resume ->
  req = token_request (config m) /\ resume = refreshToken_resume.
Proof.
  unfold getAccessToken, refreshToken.
  destruct (isTokenValid m now).
  - destruct (accessToken m) as [token|]; [|discriminate].
    destruct (negb (truthy token)); discriminate.
  - now intros [= <- <-].
Qed.

Lemma clear_both_or_neither m : both_or_neither (clear m).
Proof. left. split; reflexivity. Qed.

Lemma refreshToken_resume_both_or_neither out now m :
  both_or_neither (snd (refreshToken_resume out now m)).
Proof.
  destruct out as [data|e|e]; simpl; try apply clear_both_or_neither.
  destruct (valid_time _); simpl; [|apply clear_both_or_neither].
  right. eauto.
Qed.

Lemma reachable_both_or_neither m : reachable m -> both_or_neither m.
Proof.
  induction 1 as [cfg m Hc|m now r m' _ IH Hg
                 |m0 now req resume m out now' _ _ Hg _ _ _
                 |m _ _].
  - unfold constructor in Hc.
    destruct (_ || _); [discriminate|]. injection Hc as <-.
    left. split; reflexivity.
  - now apply getAccessToken_Sync in Hg as ->.
  - apply getAccessToken_Await in Hg as [_ ->].
    apply refreshToken_resume_both_or_neither.
  - apply clear_both_or_neither.
Qed.

(** The guard of [getAccessToken] excludes the exception of its first
    branch. *)
Lemma getAccessToken_never_null_error m now m' :
  getAccessToken m now <> Sync (Thrown (Error "Access token is null")) m'.
Proof.
  unfold getAccessToken, refreshToken.
  destruct (isTokenValid m now) eqn:Ev; [|discriminate].
  apply isTokenValid_true in Ev as (token & expiry & -> & Hne & _).
  apply truthy_iff in Hne as ->. discriminate.
Qed.

End OAuthFacts.

(** ** The cases of the repository's tests, run on the embedding

    The expectations of [validation.test.ts] and [oauth.test.ts], with the
    model of ipaddr.js in place of the library. *)

Module RepositoryTests.

Import Utils OAuth.

Definition accepts (c : completion unit) : bool := negb (is_thrown c).

Example isValidIPAddress_accepts :
  forallb (isValidIPAddress Ipaddr.parse)
    ["192.168.1.1"; "10.0.0.1"; "172.16.0.1"; "0.0.0.0"; "255.255.255.255";
     "127.0.0.1"; "1.1.1.1"; "2001:db8::1"; "::1"; "::"; "fe80::1";
     "2001:0db8:85a3:0000:0000:8a2e:0370:7334"; "2001:db8::";
     "::ffff:192.168.1.1"] = true.
Proof. vm_compute. reflexivity. Qed.

Example isValidIPAddress_rejects :
  existsb (isValidIPAddress Ipaddr.parse)
    ["256.0.0.1"; "192.168.256.1"; "999.999.999.999"; "192.168.1.1.1";
     "192.168.1."; ".192.168.1.1"; "2001:db8:::1";
     "2001:db8:85a3:0000:0000:8a2e:0370:7334:extra"; "gggg::1";
     "example.com"; "localhost"; EmptyString; "not-an-ip"] = false.
Proof. vm_compute. reflexivity. Qed.

Example isValidCIDR_accepts :
  forallb (isValidCIDR Ipaddr.parseCIDR)
    ["10.0.0.0/8"; "192.168.0.0/16"; "192.168.1.0/24"; "192.168.1.1/32";
     "0.0.0.0/0"; "10.0.0.0/0"; "10.0.0.0/32"; "2001:db8::/32"; "::/0";
     "fe80::/10"; "::1/128"] = true.
Proof. vm_compute. reflexivity. Qed.

Example isValidCIDR_rejects :
  existsb (isValidCIDR Ipaddr.parseCIDR)
    ["256.0.0.0/8"; "999.999.999.999/32"; "192.168.300.0/24"; "10.0.0.0/33";
     "10.0.0.0/64"; "10.0.0.0/99"; "10.0.0.0.0/8"; "10.0.0.0/"; "/8";
     "2001:db8::/129"; "2001:db8::/256"; "::/999"; "2001:db8:::1/64";
     "gggg::/64"; "example.com/24"; "192.168.1.1"; EmptyString;
     "not-a-cidr"] = false.
Proof. vm_compute. reflexivity. Qed.

Example validateRoutes_accepts :
  forallb (fun routes =>
             accepts (validateRoutes Ipaddr.parseCIDR
                        (VArray (map VString routes))))
    [["10.0.0.0/8"]; ["192.168.0.0/16"; "172.16.0.0/12"]; ["0.0.0.0/0"];
     ["::/0"]; ["2001:db8::/32"]; ["10.0.0.0/8"; "2001:db8::/32"]] = true.
Proof. vm_compute. reflexivity. Qed.

Example validateRoutes_rejects :
  map (validateRoutes Ipaddr.parseCIDR)
    [VArray [VString "999.999.999.999/32"];
     VArray [VString "10.0.0.0/33"];
     VArray [VString "2001:db8::/129"];
     VString "10.0.0.0/8";
     VArray [VNumber 123]]
  = [Thrown (Error "Invalid CIDR format: 999.999.999.999/32");
     Thrown (Error "Invalid CIDR format: 10.0.0.0/33");
     Thrown (Error "Invalid CIDR format: 2001:db8::/129");
     Thrown (TypeError "Routes must be an array");
     Thrown (TypeError "Each route must be a string")].
Proof. vm_compute. reflexivity. Qed.

Example validateTarget_accepts :
  forallb (fun target => accepts (validateTarget Ipaddr.parse (VString target)))
    ["192.168.1.1"; "10.0.0.1"; "2001:db8::1"; "::1"; "example.com";
     "my-server"; "server123"] = true.
Proof. vm_compute. reflexivity. Qed.

Example validateTarget_rejects :
  map (fun target => validateTarget Ipaddr.parse (VString target))
    ["999.999.999.999"; "host;rm -rf /"; "host|cat /etc/passwd";
     "host`whoami`"; "../etc/passwd"; "/etc/passwd"; "~/.ssh/id_rsa"]
  = [Thrown (Error "Invalid IPv4 address format");
     Thrown (Error "Invalid character ';' in target");
     Thrown (Error "Invalid character '|' in target");
     Thrown (Error "Invalid character '`' in target");
     Thrown (Error "Target contains invalid characters or format");
     Thrown (Error "Target contains invalid characters or format");
     Thrown (Error "Target contains invalid characters or format")].
Proof. vm_compute. reflexivity. Qed.

Example constructor_cases :
  map constructor
    [{| clientId := EmptyString; clientSecret := "test-secret";
        baseUrl := Absent |};
     {| clientId := "test-client-id"; clientSecret := EmptyString;
        baseUrl := Absent |}]
  = [Thrown (Error
       "OAuth client ID and secret are required for OAuth authentication");
     Thrown (Error
       "OAuth client ID and secret are required for OAuth authentication")]
  /\ constructor {| clientId := "test-client-id";
                    clientSecret := "test-client-secret";
                    baseUrl := Present (Some "https://custom.tailscale.com") |}
     = Returned
         {| config := {| config_clientId := "test-client-id";
                         config_clientSecret := "test-client-secret";
                         config_baseUrl := Some "https://custom.tailscale.com" |};
            accessToken := None; tokenExpiry := None |}.
Proof. split; reflexivity. Qed.

Example isConfigured_cases :
  map isConfigured
    [∅;
     {["TAILSCALE_OAUTH_CLIENT_ID" := "test-client-id"]};
     {["TAILSCALE_OAUTH_CLIENT_SECRET" := "test-client-secret"]};
     <["TAILSCALE_OAUTH_CLIENT_ID" := "test-client-id"]>
       {["TAILSCALE_OAUTH_CLIENT_SECRET" := "test-client-secret"]}]
  = [false; false; false; true].
Proof. vm_compute. reflexivity. Qed.

Example fromEnvironment_cases :
  fromEnvironment ∅ = Returned None
  /\ fromEnvironment {["TAILSCALE_OAUTH_CLIENT_ID" := "test-client-id"]}
     = Returned None
  /\ fromEnvironment
       (<["TAILSCALE_API_BASE_URL" := "https://custom.tailscale.com"]>
          (<["TAILSCALE_OAUTH_CLIENT_ID" := "test-client-id"]>
             {["TAILSCALE_OAUTH_CLIENT_SECRET" := "test-client-secret"]}))
     = Returned (Some
         {| config := {| config_clientId := "test-client-id";
                         config_clientSecret := "test-client-secret";
                         config_baseUrl := Some "https://custom.tailscale.com" |};
            accessToken := None; tokenExpiry := None |}).
Proof. repeat split. Qed.

(** A rejected exchange: the message the test [getAccessToken should fail
    with invalid credentials] expects. *)
Example getAccessToken_invalid_credentials :
  fst (refreshToken_resume
         (RejectedAxios
            {| response_data := None;
               message := "Request failed with status code 401" |})
         0 (holding None None))
  = Thrown (Error
      "OAuth authentication failed: Request failed with status code 401").
Proof. reflexivity. Qed.

End RepositoryTests.

(** * The claims of the specification *)

Import Chars Regex Utils OAuth.

(** ** Validator *)

(** C10. For every field name, [validateStringInput] accepts the empty
    string (no listed character occurs in it and its length 0 is not above
    1000), while [validateTarget] rejects the empty string, whatever
    ipaddr.js makes of it. *)
Theorem empty_string_input_accepted_target_rejected
    {address : Type} (ipaddr_parse : string -> option address)
    (fieldName : string) :
  validateStringInput (VString EmptyString) fieldName = Returned tt
  /\ validateTarget ipaddr_parse (VString EmptyString)
     = Thrown (Error "Invalid target specified").
Proof. split; reflexivity. Qed.

(** C4, as stated, fails for [validateStringInput]: the square bracket is
    in [DANGEROUS_CHARS] and occurs in the input, which is accepted. *)
Lemma validateStringInput_accepts_bracket :
  In "[" DANGEROUS_CHARS
  /\ includes "routes[0]" "[" = true
  /\ validateStringInput (VString "routes[0]") "name" = Returned tt.
Proof. repeat split; vm_compute; tauto. Qed.

(** C4 (amended). A string in which a character of [DANGEROUS_CHARS]
    occurs is rejected by [validateTarget], and a string in which a
    character of [DANGEROUS_CHARS_BASIC] occurs is rejected by
    [validateStringInput]; in both cases the message names a character
    of the list that occurs in the string. *)
Theorem dangerous_characters_rejected
    {address : Type} (ipaddr_parse : string -> option address)
    (s c fieldName : string) :
  includes s c = true ->
  (In c DANGEROUS_CHARS ->
   exists c', In c' DANGEROUS_CHARS /\ includes s c' = true /\
     validateTarget ipaddr_parse (VString s)
     = Thrown (Error ("Invalid character '" +:+ c' +:+ "' in target")))
  /\
  (In c DANGEROUS_CHARS_BASIC ->
   exists c', In c' DANGEROUS_CHARS_BASIC /\ includes s c' = true /\
     validateStringInput (VString s) fieldName
     = Thrown (Error ("Invalid character '" +:+ c' +:+ "' in "
                      +:+ fieldName))).
Proof.
  intros Hc. split; intros Hin.
  - destruct (UtilsFacts.first_included_some _ _ _ Hin Hc)
      as (c' & E & Hin' & Hc').
    exists c'. repeat split; try assumption.
    unfold validateTarget.
    rewrite (StringFacts.includes_truthy s c
               (UtilsFacts.DANGEROUS_CHARS_truthy c Hin) Hc).
    cbn [negb]. now rewrite E.
  - destruct (UtilsFacts.first_included_some _ _ _ Hin Hc)
      as (c' & E & Hin' & Hc').
    exists c'. repeat split; try assumption.
    unfold validateStringInput. now rewrite E.
Qed.

Lemma dangerous_characters_rejected_witness :
  includes "host;rm -rf /" ";" = true
  /\ ((In ";" DANGEROUS_CHARS ->
       exists c', In c' DANGEROUS_CHARS /\ includes "host;rm -rf /" c' = true /\
         validateTarget Ipaddr.parse (VString "host;rm -rf /")
         = Thrown (Error ("Invalid character '" +:+ c' +:+ "' in target")))
      /\
      (In ";" DANGEROUS_CHARS_BASIC ->
       exists c', In c' DANGEROUS_CHARS_BASIC
         /\ includes "host;rm -rf /" c' = true /\
         validateStringInput (VString "host;rm -rf /") "target"
         = Thrown (Error ("Invalid character '" +:+ c' +:+ "' in "
                          +:+ "target")))).
Proof.
  split; [reflexivity|].
  apply (dangerous_characters_rejected Ipaddr.parse). reflexivity.
Defined.

(** C5. A target made of digits and dots only, or containing a colon,
    that ipaddr.js does not parse as an IP address is rejected: it is never
    accepted through the hostname pattern. *)
Theorem malformed_ip_not_accepted_as_hostname
    {address : Type} (ipaddr_parse : string -> option address)
    (target : string) :
  all_chars digit_or_dot target = true
  \/ includes target ":" = true ->
  isValidIPAddress ipaddr_parse target = false ->
  exists e, validateTarget ipaddr_parse (VString target) = Thrown e.
Proof.
  intros Hshape Hip. unfold validateTarget.
  destruct (truthy target); cbn [negb]; [|eauto].
  destruct (first_included DANGEROUS_CHARS target); [eauto|].
  destruct (includes target ".." || startsWith target "/"
            || includes target "~"); [eauto|].
  destruct (253 <? String.length target)%nat; [eauto|].
  rewrite Hip.
  destruct (test LOOKS_LIKE_IPV4 target) eqn:Hlooks; [eauto|].
  destruct (includes target ":") eqn:Hcolon; [eauto|].
  destruct Hshape as [Hdigits|Hc]; [|discriminate].
  destruct (test VALID_HOSTNAME_PATTERN target) eqn:Hhost; cbn [negb];
    [|eauto].
  apply (UtilsFacts.hostname_of_digits_looks_like_IPv4 _ Hdigits) in Hhost.
  congruence.
Qed.

Lemma malformed_ip_not_accepted_as_hostname_witness :
  (all_chars digit_or_dot "999.999.999.999" = true
   \/ includes "999.999.999.999" ":" = true)
  /\ isValidIPAddress Ipaddr.parse "999.999.999.999" = false
  /\ exists e,
       validateTarget Ipaddr.parse (VString "999.999.999.999") = Thrown e.
Proof.
  assert (H1 : all_chars digit_or_dot "999.999.999.999" = true
               \/ includes "999.999.999.999" ":" = true)
    by (left; reflexivity).
  assert (H2 : isValidIPAddress Ipaddr.parse "999.999.999.999" = false)
    by reflexivity.
  exact (conj H1 (conj H2
    (malformed_ip_not_accepted_as_hostname Ipaddr.parse _ H1 H2))).
Defined.

(** C6. Over the model of ipaddr.js: for an IP literal [ip] and a prefix
    length [prefix] written in decimal after a slash, [isValidCIDR] is true
    exactly when [prefix] is within 0..32 if [ip] is an IPv4 literal and
    within 0..128 if it is an IPv6 literal, and false if [ip] is no IP
    literal; and a string it accepts is an IP literal, a slash and a
    decimal number, so that any other string is rejected. *)
Theorem isValidCIDR_prefix_ranges (ip : string) (prefix : Z) :
  (Ipaddr.parse ip = Some Ipaddr.IPv4 ->
   isValidCIDR Ipaddr.parseCIDR (ip +:+ "/" +:+ Number_toString prefix)
   = (0 <=? prefix) && (prefix <=? 32))
  /\ (Ipaddr.parse ip = Some Ipaddr.IPv6 ->
      isValidCIDR Ipaddr.parseCIDR (ip +:+ "/" +:+ Number_toString prefix)
      = (0 <=? prefix) && (prefix <=? 128))
  /\ (isValidIPAddress Ipaddr.parse ip = false ->
      isValidCIDR Ipaddr.parseCIDR (ip +:+ "/" +:+ Number_toString prefix)
      = false)
  /\ (forall s,
        isValidCIDR Ipaddr.parseCIDR s = true ->
        exists ip' len n,
          s = ip' +:+ "/" +:+ len
          /\ isValidIPAddress Ipaddr.parse ip' = true
          /\ Ipaddr.decimal len = Some n).
Proof.
  assert (Hcut : Ipaddr.cut_prefix_length (ip +:+ "/" +:+ Number_toString prefix)
                 = Some (ip, Number_toString prefix))
    by apply IpaddrFacts.cut_prefix_length_app,
             IpaddrFacts.Number_toString_no_slash.
  unfold isValidCIDR, isValidIPAddress, Ipaddr.parseCIDR.
  rewrite Hcut, IpaddrFacts.decimal_Number_toString.
  repeat split.
  - intros ->. unfold Ipaddr.max_prefix.
    destruct (0 <=? prefix) eqn:E0; [|reflexivity].
    cbn beta iota. rewrite E0. now destruct (prefix <=? 32).
  - intros ->. unfold Ipaddr.max_prefix.
    destruct (0 <=? prefix) eqn:E0; [|reflexivity].
    cbn beta iota. rewrite E0. now destruct (prefix <=? 128).
  - destruct (Ipaddr.parse ip); [discriminate | reflexivity].
  - intros s H.
    destruct (Ipaddr.cut_prefix_length s) as [[ip' len]|] eqn:Es;
      [|discriminate].
    apply IpaddrFacts.cut_prefix_length_some in Es.
    destruct (Ipaddr.parse ip') eqn:Ep; [|discriminate].
    destruct (Ipaddr.decimal len) as [n|] eqn:En; [|discriminate].
    exists ip', len, n. now rewrite Ep.
Qed.

Lemma isValidCIDR_prefix_ranges_witness :
  Ipaddr.parse "10.0.0.0" = Some Ipaddr.IPv4
  /\ isValidCIDR Ipaddr.parseCIDR ("10.0.0.0" +:+ "/" +:+ Number_toString 33)
     = (0 <=? 33) && (33 <=? 32).
Proof.
  split; [reflexivity|].
  apply (proj1 (isValidCIDR_prefix_ranges "10.0.0.0" 33)). reflexivity.
Defined.

(** C7, as stated, fails on an array whose non-string element comes after
    a string that is no CIDR: the failure is the one of the string. *)
Lemma validateRoutes_reports_earlier_invalid_cidr :
  is_string (VNumber 123) = false
  /\ validateRoutes Ipaddr.parseCIDR
       (VArray [VString "not-a-cidr"; VNumber 123])
     = Thrown (Error "Invalid CIDR format: not-a-cidr").
Proof. split; reflexivity. Qed.

(** C7 (amended). [validateRoutes] rejects a value that is no array with
    the message that routes must be an array. On an array it takes the
    elements in order: if the elements before the first non-string one are
    valid CIDR strings, it fails with the message that each route must be a
    string, whatever follows that element; an array of strings fails
    exactly when some element fails [isValidCIDR], and the message then
    gives the first such element as an invalid CIDR format. *)
Theorem validateRoutes_checks_in_order
    {address : Type} (ipaddr_parseCIDR : string -> option (address * Z)) :
  (forall routes,
     isArray routes = false ->
     validateRoutes ipaddr_parseCIDR routes
     = Thrown (TypeError "Routes must be an array"))
  /\ (forall rs v rest,
        forallb (isValidCIDR ipaddr_parseCIDR) rs = true ->
        is_string v = false ->
        validateRoutes ipaddr_parseCIDR (VArray (map VString rs ++ v :: rest))
        = Thrown (TypeError "Each route must be a string"))
  /\ (forall rs,
        is_thrown (validateRoutes ipaddr_parseCIDR (VArray (map VString rs)))
        = negb (forallb (isValidCIDR ipaddr_parseCIDR) rs))
  /\ (forall rs r rest,
        forallb (isValidCIDR ipaddr_parseCIDR) rs = true ->
        isValidCIDR ipaddr_parseCIDR r = false ->
        validateRoutes ipaddr_parseCIDR
          (VArray (map VString rs ++ VString r :: rest))
        = Thrown (Error ("Invalid CIDR format: " +:+ r))).
Proof.
  repeat split.
  - intros routes H. destruct routes; try reflexivity. discriminate H.
  - intros rs v rest Hrs Hv. simpl.
    rewrite (UtilsFacts.validateRoutes_loop_valid_prefix _ _ _ Hrs).
    destruct v; try reflexivity. discriminate Hv.
  - intros rs. simpl. induction rs as [|r rs IH]; simpl; [reflexivity|].
    destruct (isValidCIDR ipaddr_parseCIDR r); simpl; [exact IH | reflexivity].
  - intros rs r rest Hrs Hr. simpl.
    rewrite (UtilsFacts.validateRoutes_loop_valid_prefix _ _ _ Hrs).
    simpl. now rewrite Hr.
Qed.

Lemma validateRoutes_checks_in_order_witness :
  forallb (isValidCIDR Ipaddr.parseCIDR) ["10.0.0.0/8"; "2001:db8::/32"] = true
  /\ is_string (VNumber 123) = false
  /\ validateRoutes Ipaddr.parseCIDR
       (VArray (map VString ["10.0.0.0/8"; "2001:db8::/32"]
                ++ VNumber 123 :: [VString "999.999.999.999/32"]))
     = Thrown (TypeError "Each route must be a string").
Proof.
  assert (H1 : forallb (isValidCIDR Ipaddr.parseCIDR)
                 ["10.0.0.0/8"; "2001:db8::/32"] = true) by reflexivity.
  assert (H2 : is_string (VNumber 123) = false) by reflexivity.
  exact (conj H1 (conj H2
    (proj1 (proj2 (validateRoutes_checks_in_order Ipaddr.parseCIDR))
       _ _ _ H1 H2))).
Defined.

(** ** Credential manager *)

(** C1, as stated, fails on a manager that holds an empty token string
    with an expiry an hour ahead, the state a token response with an empty
    [access_token] leaves: [getAccessToken] issues the token request. *)
Lemma getAccessToken_refreshes_empty_token :
  reachable (holding (Some EmptyString) (Some 3600000))
  /\ 0 + 60 * 1000 < 3600000
  /\ getAccessToken (holding (Some EmptyString) (Some 3600000)) 0
     = Await
         {| url := "https://api.tailscale.com/api/v2/oauth/token";
            form := [("client_id", "id"); ("client_secret", "secret")];
            content_type := "application/x-www-form-urlencoded";
            timeout := 30000 |}
         refreshToken_resume.
Proof.
  split; [|split; [lia | reflexivity]].
  assert (H0 : reachable (holding None None))
    by (apply (reach_constructor credentials); reflexivity).
  exact (reach_resume (holding None None) 0 _ _ (holding None None)
           (Resolved {| access_token := EmptyString; token_type := "Bearer";
                        expires_in := 3600; scope := None |})
           0 H0 eq_refl H0 eq_refl).
Qed.

(** C1 (amended). If the manager holds a non-empty token and more than 60
    seconds remain before its expiry, [getAccessToken] returns that token
    without a request and leaves the manager as it is. In every other
    state (no token, an empty token, no expiry, or an expiry at most 60
    seconds ahead) it issues the token request and resumes in
    [refreshToken]. *)
Theorem getAccessToken_cached_or_refresh
    (m : TailscaleOAuthManager) (now : Z) :
  (forall token expiresAt,
     accessToken m = Some token -> token <> EmptyString ->
     tokenExpiry m = Some expiresAt -> now + 60 * 1000 < expiresAt ->
     getAccessToken m now = Sync (Returned token) m)
  /\ (accessToken m = None \/ accessToken m = Some EmptyString
      \/ tokenExpiry m = None
      \/ (exists expiresAt,
            tokenExpiry m = Some expiresAt /\ expiresAt <= now + 60 * 1000) ->
      getAccessToken m now
      = Await (token_request (config m)) refreshToken_resume).
Proof.
  split.
  - intros token expiresAt Ht Hne He Hfresh. unfold getAccessToken.
    assert (Hv : isTokenValid m now = true)
      by (apply OAuthFacts.isTokenValid_true; eauto 6).
    rewrite Hv, Ht. now apply OAuthFacts.truthy_iff in Hne as ->.
  - intros H. unfold getAccessToken.
    destruct (isTokenValid m now) eqn:Hv; [|reflexivity].
    apply OAuthFacts.isTokenValid_true in Hv
      as (token & expiry & Ht & Hne & He & Hfresh).
    destruct H as [H|[H|[H|(e & H & Hle)]]]; try congruence.
    rewrite He in H. injection H as <-. lia.
Qed.

Lemma getAccessToken_cached_or_refresh_witness :
  getAccessToken (holding (Some "tskey-1") (Some 3600000)) 3539999
  = Sync (Returned "tskey-1") (holding (Some "tskey-1") (Some 3600000))
  /\ getAccessToken (holding (Some "tskey-1") (Some 3600000)) 3540000
     = Await (token_request (spread_over_default credentials))
         refreshToken_resume.
Proof.
  split.
  - apply (proj1 (getAccessToken_cached_or_refresh
                    (holding (Some "tskey-1") (Some 3600000)) 3539999)
             "tskey-1" 3600000);
      [reflexivity | discriminate | reflexivity | lia].
  - apply (proj2 (getAccessToken_cached_or_refresh
                    (holding (Some "tskey-1") (Some 3600000)) 3540000)).
    right; right; right. exists 3600000. split; [reflexivity | lia].
Defined.

(** C2, as stated, fails on a rejected request whose response carries an
    [error] code and no [error_description]: the message carries the code,
    not the failure reason of the transport. *)
Lemma refreshToken_reports_error_code_first :
  data_error_description
    {| response_data := Some {| error_description := None;
                                error := Some "invalid_client" |};
       message := "Request failed with status code 401" |} = None
  /\ fst (refreshToken_resume
            (RejectedAxios
               {| response_data := Some {| error_description := None;
                                           error := Some "invalid_client" |};
                  message := "Request failed with status code 401" |})
            0 (holding (Some "tskey-1") (Some 3600000)))
     = Thrown (Error "OAuth authentication failed: invalid_client")
  /\ includes "OAuth authentication failed: invalid_client"
       "Request failed with status code 401" = false.
Proof. repeat split. Qed.

(** C2 (amended). When the token request fails, [refreshToken] clears the
    token and the expiry, so that any later [getAccessToken] issues a new
    request. If the failure is an [AxiosError], it throws an [Error] whose
    message is the text OAuth authentication failed, a colon, and the first
    non-empty one of: the [error_description] of the response, the [error]
    of the response, the message of the failure, a fixed text. Any other
    exception is thrown again as it is. *)
Theorem refreshToken_failure_clears_and_reports
    (m : TailscaleOAuthManager) (now : Z) (out : HttpOutcome) :
  (forall data, out <> Resolved data) ->
  accessToken (snd (refreshToken_resume out now m)) = None
  /\ tokenExpiry (snd (refreshToken_resume out now m)) = None
  /\ (forall later,
        getAccessToken (snd (refreshToken_resume out now m)) later
        = Await (token_request (config m)) refreshToken_resume)
  /\ (forall e,
        out = RejectedAxios e ->
        exists msg,
          fst (refreshToken_resume out now m)
          = Thrown (Error ("OAuth authentication failed: " +:+ msg))
          /\ (forall d, data_error_description e = Some d ->
                        d <> EmptyString -> msg = d)
          /\ (truthy_opt (data_error_description e) = false ->
              forall c, data_error e = Some c -> c <> EmptyString -> msg = c)
          /\ (truthy_opt (data_error_description e) = false ->
              truthy_opt (data_error e) = false ->
              message e <> EmptyString -> msg = message e)
          /\ (truthy_opt (data_error_description e) = false ->
              truthy_opt (data_error e) = false ->
              message e = EmptyString ->
              msg = "Failed to obtain OAuth token"))
  /\ (forall e, out = Rejected e ->
                fst (refreshToken_resume out now m) = Thrown e).
Proof.
  intros Hfail.
  assert (Hclear : snd (refreshToken_resume out now m) = clear m).
  { destruct out as [data|e|e]; [|reflexivity..]. now destruct (Hfail data). }
  rewrite Hclear. repeat split.
  - intros e ->. exists (errorMsg e). split; [reflexivity|].
    unfold errorMsg, or_else.
    repeat split.
    + intros d -> Hd. apply OAuthFacts.truthy_iff in Hd.
      unfold or_string, truthy_opt. now rewrite !Hd.
    + intros -> c -> Hc. apply OAuthFacts.truthy_iff in Hc.
      unfold or_string, truthy_opt. now rewrite !Hc.
    + intros -> -> Hm. apply OAuthFacts.truthy_iff in Hm.
      unfold or_string, truthy_opt. now rewrite !Hm.
    + intros -> -> ->. reflexivity.
  - now intros e ->.
Qed.

Lemma refreshToken_failure_clears_and_reports_witness :
  (forall data,
     RejectedAxios
       {| response_data := Some {| error_description := Some "bad secret";
                                   error := Some "invalid_client" |};
          message := "Request failed with status code 401" |}
     <> Resolved data)
  /\ accessToken
       (snd (refreshToken_resume
               (RejectedAxios
                  {| response_data :=
                       Some {| error_description := Some "bad secret";
                               error := Some "invalid_client" |};
                     message := "Request failed with status code 401" |})
               0 (holding (Some "tskey-1") (Some 3600000)))) = None.
Proof.
  split; [discriminate|].
  apply (refreshToken_failure_clears_and_reports
           (holding (Some "tskey-1") (Some 3600000)) 0).
  discriminate.
Defined.

(** C3. A configuration without the key [baseUrl] gets the default base
    URL, and the token request then goes to its token endpoint; but
    [fromEnvironment] always passes the key, holding [undefined] when
    TAILSCALE_API_BASE_URL is unset, the spread overwrites the default with
    it, and the request goes to a URL that starts with the text
    undefined. *)
Theorem fromEnvironment_unset_base_url_overwrites_default :
  (forall id secret,
     truthy id = true -> truthy secret = true ->
     exists m,
       constructor {| clientId := id; clientSecret := secret;
                      baseUrl := Absent |} = Returned m
       /\ url (token_request (config m))
          = "https://api.tailscale.com/api/v2/oauth/token")
  /\ exists m,
       fromEnvironment
         (<["TAILSCALE_OAUTH_CLIENT_ID" := "id"]>
            {["TAILSCALE_OAUTH_CLIENT_SECRET" := "secret"]})
       = Returned (Some m)
       /\ getAccessToken m 0
          = Await
              {| url := "undefined/api/v2/oauth/token";
                 form := [("client_id", "id"); ("client_secret", "secret")];
                 content_type := "application/x-www-form-urlencoded";
                 timeout := 30000 |}
              refreshToken_resume.
Proof.
  split.
  - intros id secret Hid Hsecret.
    exists {| config := {| config_clientId := id;
                           config_clientSecret := secret;
                           config_baseUrl := Some "https://api.tailscale.com" |};
              accessToken := None; tokenExpiry := None |}.
    unfold constructor, spread_over_default.
    cbn [clientId clientSecret baseUrl config_clientId config_clientSecret].
    rewrite Hid, Hsecret. split; reflexivity.
  - exists {| config := {| config_clientId := "id";
                           config_clientSecret := "secret";
                           config_baseUrl := None |};
              accessToken := None; tokenExpiry := None |}.
    split; reflexivity.
Qed.

(** C8. The constructor throws when the client id or the client secret
    is empty. When either variable is absent from the environment,
    [isConfigured] is false and [fromEnvironment] returns null; when
    [isConfigured] is true, or [fromEnvironment] returns a manager, both
    variables are present; and [fromEnvironment] never throws. *)
Theorem credentials_required_and_discovered :
  (forall cfg,
     clientId cfg = EmptyString \/ clientSecret cfg = EmptyString ->
     constructor cfg
     = Thrown (Error
         "OAuth client ID and secret are required for OAuth authentication"))
  /\ (forall env : gmap string string,
        env !! "TAILSCALE_OAUTH_CLIENT_ID" = None
        \/ env !! "TAILSCALE_OAUTH_CLIENT_SECRET" = None ->
        isConfigured env = false /\ fromEnvironment env = Returned None)
  /\ (forall env : gmap string string,
        isConfigured env = true
        \/ (exists m, fromEnvironment env = Returned (Some m)) ->
        (exists id, env !! "TAILSCALE_OAUTH_CLIENT_ID" = Some id)
        /\ (exists secret,
              env !! "TAILSCALE_OAUTH_CLIENT_SECRET" = Some secret))
  /\ (forall env : gmap string string,
        exists r, fromEnvironment env = Returned r).
Proof.
  repeat split.
  - intros cfg [H|H]; unfold constructor; simpl; rewrite H; simpl;
      [reflexivity | now rewrite orb_true_r].
  - destruct H as [H|H]; unfold isConfigured; rewrite H; simpl;
      [reflexivity | apply andb_false_r].
  - destruct H as [H|H]; unfold fromEnvironment; rewrite H;
      [reflexivity | now destruct (env !! "TAILSCALE_OAUTH_CLIENT_ID")].
  - destruct H as [H|[m H]].
    + unfold isConfigured in H.
      destruct (env !! "TAILSCALE_OAUTH_CLIENT_ID"); [eauto | discriminate].
    + unfold fromEnvironment in H.
      destruct (env !! "TAILSCALE_OAUTH_CLIENT_ID"); [eauto | discriminate].
  - destruct H as [H|[m H]].
    + unfold isConfigured in H. apply andb_true_iff in H as [_ H].
      destruct (env !! "TAILSCALE_OAUTH_CLIENT_SECRET"); [eauto | discriminate].
    + unfold fromEnvironment in H.
      destruct (env !! "TAILSCALE_OAUTH_CLIENT_ID"); [|discriminate].
      destruct (env !! "TAILSCALE_OAUTH_CLIENT_SECRET"); [eauto | discriminate].
  - intros env. unfold fromEnvironment, constructor.
    destruct (env !! "TAILSCALE_OAUTH_CLIENT_ID") as [id|]; [|eauto].
    destruct (env !! "TAILSCALE_OAUTH_CLIENT_SECRET") as [secret|]; [|eauto].
    simpl. destruct (negb (truthy id) || negb (truthy secret)); eauto.
Qed.

Lemma credentials_required_and_discovered_witness :
  (clientId {| clientId := EmptyString; clientSecret := "test-secret";
               baseUrl := Absent |} = EmptyString
   \/ clientSecret {| clientId := EmptyString; clientSecret := "test-secret";
                      baseUrl := Absent |} = EmptyString)
  /\ constructor {| clientId := EmptyString; clientSecret := "test-secret";
                    baseUrl := Absent |}
     = Thrown (Error
         "OAuth client ID and secret are required for OAuth authentication").
Proof.
  assert (H : clientId {| clientId := EmptyString;
                          clientSecret := "test-secret";
                          baseUrl := Absent |} = EmptyString
              \/ clientSecret {| clientId := EmptyString;
                                 clientSecret := "test-secret";
                                 baseUrl := Absent |} = EmptyString)
    by (left; reflexivity).
  exact (conj H (proj1 credentials_required_and_discovered _ H)).
Defined.

(** C9. In every state a manager reaches, the token and the expiry are
    both null or both set; and from no such state does [getAccessToken]
    throw the error of its branch for a null token. *)
Theorem token_and_expiry_null_together (m : TailscaleOAuthManager) :
  reachable m ->
  ((accessToken m = None /\ tokenExpiry m = None)
   \/ (exists token expiry,
         accessToken m = Some token /\ tokenExpiry m = Some expiry))
  /\ (forall now m',
        getAccessToken m now
        <> Sync (Thrown (Error "Access token is null")) m').
Proof.
  intros H. split.
  - exact (OAuthFacts.reachable_both_or_neither m H).
  - intros now m'. apply OAuthFacts.getAccessToken_never_null_error.
Qed.

Lemma token_and_expiry_null_together_witness :
  reachable (holding (Some "tskey-1") (Some 3600000))
  /\ getAccessToken (holding (Some "tskey-1") (Some 3600000)) 0
     <> Sync (Thrown (Error "Access token is null"))
          (holding (Some "tskey-1") (Some 3600000)).
Proof.
  assert (H0 : reachable (holding None None))
    by (apply (reach_constructor credentials); reflexivity).
  assert (H : reachable (holding (Some "tskey-1") (Some 3600000))).
  { exact (reach_resume (holding None None) 0 _ _ (holding None None)
             (Resolved {| access_token := "tskey-1"; token_type := "Bearer";
                          expires_in := 3600; scope := None |})
             0 H0 eq_refl H0 eq_refl). }
  exact (conj H (proj2 (token_and_expiry_null_together _ H) 0 _)).
Defined.

(** * Further properties of the code *)

(** ** Words of the patterns, part by part *)

Module ShapeFacts.

Import Chars Regex RegexFacts StringFacts Utils Shapes.

Lemma matches_alphabet q r s :
  alphabet_within q r -> matches r s -> all_chars q s = true.
Proof.
  intros Hq H. induction H as [|p c Hc|r1 r2 s1 s2 _ IH1 _ IH2
                              |r1 r2 s _ IH|r1 r2 s _ IH| |r s1 s2 _ IH1 _ IH2];
    simpl in Hq.
  - reflexivity.
  - simpl. now rewrite (Hq c Hc).
  - destruct Hq as [Hq1 Hq2]. now rewrite all_chars_app, IH1, IH2.
  - apply IH, Hq.
  - apply IH, Hq.
  - reflexivity.
  - now rewrite all_chars_app, IH1, IH2.
Qed.

Lemma Star_Class_intro p s :
  all_chars p s = true -> matches (Star (Class p)) s.
Proof.
  induction s as [|c s IH]; simpl; [constructor|].
  intros H. apply andb_true_iff in H as [Hc Hs].
  change (String c s) with (String c EmptyString +:+ s).
  apply MStarApp; [now constructor | auto].
Qed.

Lemma last_char_snoc t d : last_char (t +:+ String d EmptyString) = Some d.
Proof.
  induction t as [|c t IH]; simpl; [reflexivity|]. now rewrite IH.
Qed.

(** A non-empty string is its beginning and its last character. *)
Lemma last_char_some s d :
  last_char s = Some d -> exists t, s = t +:+ String d EmptyString.
Proof.
  revert d. induction s as [|c s IH]; simpl; intros d; [discriminate|].
  destruct (last_char s) as [e|] eqn:E.
  - intros [= <-]. destruct (IH e eq_refl) as [t ->].
    now exists (String c t).
  - intros [= <-]. destruct s; [|simpl in E; destruct (last_char s); discriminate].
    now exists EmptyString.
Qed.

Lemma last_char_none s : last_char s = None -> s = EmptyString.
Proof.
  destruct s as [|c s]; [reflexivity|]. simpl.
  destruct (last_char s); discriminate.
Qed.

Lemma all_chars_last p s d :
  all_chars p s = true -> last_char s = Some d -> p d = true.
Proof.
  intros Hs Hd. apply last_char_some in Hd as [t ->].
  rewrite all_chars_app in Hs. apply andb_true_iff in Hs as [_ Hs].
  simpl in Hs. now rewrite andb_true_r in Hs.
Qed.

(** The words of the label pattern are the labels. *)
Lemma label_spec l : matches label l <-> is_label l = true.
Proof.
  split.
  - intros H. unfold label, Opt in H.
    apply matches_Cat_inv in H as (s1 & s2 & -> & H1 & H2).
    apply matches_Class_inv in H1 as (c & -> & Hc). simpl. rewrite Hc. simpl.
    apply matches_Alt_inv in H2 as [H2|H2].
    + inversion H2. reflexivity.
    + apply matches_Cat_inv in H2 as (t & u & -> & Ht & Hu).
      apply matches_Star_Class in Ht.
      apply matches_Class_inv in Hu as (d & -> & Hd).
      rewrite all_chars_app, Ht, last_char_snoc. simpl.
      now rewrite (UtilsFacts.alnum_is_alnum_hyphen _ Hd), Hd.
  - destruct l as [|c rest]; [discriminate|]. simpl.
    rewrite !andb_true_iff. intros [[Hc Hrest] Hlast].
    change (String c rest) with (String c EmptyString +:+ rest).
    apply MCat; [now constructor|].
    destruct (last_char rest) as [d|] eqn:E.
    + apply MAltR. apply last_char_some in E as [t ->].
      rewrite all_chars_app in Hrest. apply andb_true_iff in Hrest as [Ht _].
      apply MCat; [now apply Star_Class_intro | now constructor].
    + apply last_char_none in E as ->. apply MAltL. constructor.
Qed.

(** The words of [\d+] are the numbers. *)
Lemma number_spec l :
  matches (Plus (Class digit)) l <-> is_number l = true.
Proof.
  unfold is_number. rewrite andb_true_iff. split.
  - intros H. unfold Plus in H.
    apply matches_Cat_inv in H as (s1 & s2 & -> & H1 & H2).
    apply matches_Class_inv in H1 as (c & -> & Hc).
    apply matches_Star_Class in H2. simpl. now rewrite Hc, H2.
  - intros [Hne Hd]. apply Plus_Class_intro; [|exact Hd].
    now destruct l.
Qed.

Lemma is_number_is_label l : is_number l = true -> is_label l = true.
Proof.
  unfold is_number. destruct l as [|c rest]; [discriminate|]. simpl.
  intros H. apply andb_true_iff in H as [Hc Hrest].
  assert (Hd : forall x, digit x = true -> alnum x = true)
    by (intros x Hx; unfold alnum; now rewrite Hx, orb_true_r).
  rewrite (Hd c Hc). simpl.
  rewrite (all_chars_weaken digit alnum_hyphen rest). 2: {
    intros x Hx. now apply UtilsFacts.alnum_is_alnum_hyphen, Hd. }
  2: exact Hrest.
  simpl. destruct (last_char rest) as [d|] eqn:E; [|reflexivity].
  apply Hd. exact (all_chars_last digit rest d Hrest E).
Qed.

(** *** Splitting at the dots *)

Lemma split_no_dot w : no_dot w -> Ipaddr.split "." w = [w].
Proof.
  unfold no_dot. induction w as [|c w IH]; simpl; [reflexivity|].
  intros H. apply andb_true_iff in H as [Hc Hw].
  unfold dot in Hc. apply negb_true_iff in Hc. rewrite Hc.
  now rewrite (IH Hw).
Qed.

Lemma split_app_dot w rest :
  no_dot w ->
  Ipaddr.split "." (w +:+ "." +:+ rest) = w :: Ipaddr.split "." rest.
Proof.
  unfold no_dot. induction w as [|c w IH]; simpl; [reflexivity|].
  intros H. apply andb_true_iff in H as [Hc Hw].
  unfold dot in Hc. apply negb_true_iff in Hc. rewrite Hc.
  simpl in IH. now rewrite (IH Hw).
Qed.

(** Joining the parts with dots gives the string back. *)
Lemma split_join s :
  exists h t, Ipaddr.split "." s = h :: t /\ s = join_dots h t.
Proof.
  induction s as [|c s (h & t & E & Hs)]; simpl.
  - now exists EmptyString, [].
  - rewrite E. destruct (Ascii.eqb c ".") eqn:Ec.
    + apply Ascii.eqb_eq in Ec as ->.
      exists EmptyString, (h :: t). split; [reflexivity|].
      simpl. now rewrite <- Hs.
    + exists (String c h), t. split; [reflexivity|].
      rewrite Hs at 1. now destruct t.
Qed.

Section SeparatedByDots.

(** A pattern [r] none of whose words holds a dot. *)
Variable r : regex.
Hypothesis r_no_dot : forall w, matches r w -> no_dot w.

Lemma separated_parts rest :
  matches (Star (Cat (Class dot) r)) rest ->
  forall w, matches r w ->
  Forall (matches r) (Ipaddr.split "." (w +:+ rest)).
Proof.
  intros H. remember (Star (Cat (Class dot) r)) as r0 eqn:Er.
  induction H as [| | | | | |r1 s1 s2 H1 _ _ IH2]; try discriminate.
  - intros w Hw. rewrite append_nil_r, (split_no_dot w (r_no_dot w Hw)).
    now repeat constructor.
  - injection Er as ->. intros w Hw.
    apply matches_Cat_inv in H1 as (d & w1 & -> & Hd & Hw1).
    apply matches_Class_inv in Hd as (c & -> & Hc).
    apply Ascii.eqb_eq in Hc as ->.
    change (w +:+ (String "." EmptyString +:+ w1) +:+ s2)
      with (w +:+ "." +:+ (w1 +:+ s2)).
    rewrite (split_app_dot w _ (r_no_dot w Hw)).
    constructor; [exact Hw | now apply IH2].
Qed.

Lemma joined_parts p rest :
  matches r p -> Forall (matches r) rest ->
  matches (Star (Cat (Class dot) r)) ("." +:+ join_dots p rest).
Proof.
  intros Hp Hrest. revert p Hp.
  induction Hrest as [|q rest Hq _ IH]; intros p Hp; simpl.
  - rewrite <- (append_nil_r (String "." p)).
    apply MStarApp; [|constructor].
    change (String "." p) with (String "." EmptyString +:+ p).
    apply MCat; [now constructor | exact Hp].
  - change (String "." (p +:+ String "." (join_dots q rest)))
      with ((String "." EmptyString +:+ p) +:+ ("." +:+ join_dots q rest)).
    apply MStarApp; [|now apply IH].
    apply MCat; [now constructor | exact Hp].
Qed.

(** A string matches [r(\.r)*] exactly when each of its parts between
    the dots matches [r]. *)
Lemma separated_by_dots s :
  test (Cat r (Star (Cat (Class dot) r))) s
  = forallb (test r) (Ipaddr.split "." s).
Proof.
  apply eq_true_iff_eq. rewrite test_spec, forallb_forall. split.
  - intros H p Hp. apply test_spec.
    apply matches_Cat_inv in H as (w & rest & -> & Hw & Hrest).
    pose proof (separated_parts rest Hrest w Hw) as Hall.
    rewrite Forall_forall in Hall. apply Hall. now apply list_elem_of_In.
  - intros H. destruct (split_join s) as (h & t & E & ->).
    rewrite E in H.
    assert (Hh : matches r h) by (apply test_spec, H; now left).
    assert (Ht : Forall (matches r) t).
    { apply Forall_forall. intros p Hp. apply test_spec, H.
      right. now apply list_elem_of_In. }
    destruct t as [|p t]; simpl.
    + rewrite <- (append_nil_r h). apply MCat; [exact Hh | constructor].
    + apply MCat; [exact Hh|].
      apply Forall_cons_iff in Ht as [Hp Ht]. now apply joined_parts.
Qed.

End SeparatedByDots.

End ShapeFacts.

(** ** What [validateTarget] lets through *)

Module TargetFacts.

Import Chars Regex RegexFacts StringFacts Utils Shapes ShapeFacts.

Lemma prefix_cons a p b s :
  String.prefix (String a p) (String b s)
  = if ascii_dec a b then String.prefix p s else false.
Proof. reflexivity. Qed.

(** A character that occurs in a string is one of its characters. *)
Lemma includes_char p s x :
  includes s (String x EmptyString) = true ->
  all_chars p s = true -> p x = true.
Proof.
  induction s as [|c s IH]; simpl; [discriminate|].
  intros H Hs. apply andb_true_iff in Hs as [Hc Hs].
  destruct (ascii_dec x c) as [->|_]; [exact Hc|].
  simpl in H. auto.
Qed.

(** Two dots in a row leave an empty part between them. *)
Lemma includes_dots_empty_part s :
  includes s ".." = true -> In EmptyString (tl (Ipaddr.split "." s)).
Proof.
  induction s as [|c s IH]; [discriminate|].
  cbn [includes]. intros H. apply orb_true_iff in H as [H|H].
  - rewrite prefix_cons in H.
    destruct (ascii_dec "." c) as [<-|]; [|discriminate].
    destruct s as [|d s]; [discriminate|].
    rewrite prefix_cons in H.
    destruct (ascii_dec "." d) as [<-|]; [|discriminate].
    simpl. now left.
  - specialize (IH H). simpl.
    destruct (Ascii.eqb c ".").
    + destruct (Ipaddr.split "." s) as [|h t]; simpl in *;
        [contradiction | now right].
    + destruct (Ipaddr.split "." s) as [|h t]; simpl in *;
        [contradiction | exact IH].
Qed.

Lemma label_no_dot w : matches label w -> no_dot w.
Proof.
  intros H. apply UtilsFacts.label_chars in H as [_ H].
  revert H. apply all_chars_weaken. intros c Hc. apply negb_true_iff.
  unfold dot. destruct (Ascii.eqb c ".") eqn:E; [|reflexivity].
  apply Ascii.eqb_eq in E. subst c. discriminate Hc.
Qed.

Lemma number_no_dot w : matches (Plus (Class digit)) w -> no_dot w.
Proof.
  intros H. apply number_spec in H. unfold is_number in H.
  apply andb_true_iff in H as [_ H].
  revert H. apply all_chars_weaken. intros c Hc. apply negb_true_iff.
  unfold dot. destruct (Ascii.eqb c ".") eqn:E; [|reflexivity].
  apply Ascii.eqb_eq in E. subst c. discriminate Hc.
Qed.

Lemma test_label l : test label l = is_label l.
Proof. apply eq_true_iff_eq. rewrite test_spec. apply label_spec. Qed.

Lemma test_number l : test (Plus (Class digit)) l = is_number l.
Proof. apply eq_true_iff_eq. rewrite test_spec. apply number_spec. Qed.

Lemma forallb_ext_all {A} (f g : A -> bool) l :
  (forall x, f x = g x) -> forallb f l = forallb g l.
Proof. intros H. induction l as [|x l IH]; simpl; [reflexivity|]. now rewrite H, IH. Qed.

Lemma hostname_parts s :
  test VALID_HOSTNAME_PATTERN s = forallb is_label (Ipaddr.split "." s).
Proof.
  unfold VALID_HOSTNAME_PATTERN.
  rewrite (separated_by_dots label label_no_dot).
  apply forallb_ext_all, test_label.
Qed.

Lemma looks_like_IPv4_parts s :
  test LOOKS_LIKE_IPV4 s = forallb is_number (Ipaddr.split "." s).
Proof.
  unfold LOOKS_LIKE_IPV4.
  rewrite (separated_by_dots _ number_no_dot).
  apply forallb_ext_all, test_number.
Qed.

Lemma hostname_alphabet s :
  test VALID_HOSTNAME_PATTERN s = true ->
  all_chars (fun c => alnum_hyphen c || dot c) s = true.
Proof.
  intros H. apply test_spec in H. revert H. apply matches_alphabet.
  assert (Ha : forall c, alnum c = true -> alnum_hyphen c || dot c = true)
    by (intros c Hc; now rewrite (UtilsFacts.alnum_is_alnum_hyphen _ Hc)).
  assert (Hh : forall c, alnum_hyphen c = true -> alnum_hyphen c || dot c = true)
    by (intros c ->; reflexivity).
  assert (Hd : forall c, dot c = true -> alnum_hyphen c || dot c = true)
    by (intros c ->; apply orb_true_r).
  simpl. tauto.
Qed.

Lemma hostname_truthy s :
  test VALID_HOSTNAME_PATTERN s = true -> truthy s = true.
Proof. destruct s; [discriminate | reflexivity]. Qed.

(** No character outside the hostname alphabet occurs in a hostname. *)
Lemma hostname_excludes s c :
  test VALID_HOSTNAME_PATTERN s = true ->
  outside_hostname_alphabet c = true -> includes s c = false.
Proof.
  intros Hs Hc. destruct c as [|x [|? ?]]; try discriminate.
  simpl in Hc. apply negb_true_iff in Hc.
  destruct (includes s (String x EmptyString)) eqn:E; [|reflexivity].
  pose proof (includes_char _ s x E (hostname_alphabet s Hs)). congruence.
Qed.

Lemma hostname_no_dangerous s :
  test VALID_HOSTNAME_PATTERN s = true ->
  first_included DANGEROUS_CHARS s = None.
Proof.
  intros Hs. unfold first_included.
  destruct (find (includes s) DANGEROUS_CHARS) as [c|] eqn:E; [|reflexivity].
  apply find_some in E as [Hin Hc].
  assert (Hout : forallb outside_hostname_alphabet DANGEROUS_CHARS = true)
    by reflexivity.
  rewrite forallb_forall in Hout.
  rewrite (hostname_excludes s c Hs (Hout c Hin)) in Hc. discriminate.
Qed.

Lemma hostname_no_dots_in_a_row s :
  test VALID_HOSTNAME_PATTERN s = true -> includes s ".." = false.
Proof.
  intros Hs. destruct (includes s "..") eqn:E; [|reflexivity].
  apply includes_dots_empty_part in E.
  rewrite hostname_parts, forallb_forall in Hs.
  assert (Hin : In EmptyString (Ipaddr.split "." s)).
  { destruct (Ipaddr.split "." s); [destruct E | now right]. }
  apply Hs in Hin. discriminate.
Qed.

Lemma startsWith_includes s p : startsWith s p = true -> includes s p = true.
Proof. unfold startsWith. destruct s; simpl; intros ->; reflexivity. Qed.

End TargetFacts.

Module ValidatorFacts.

Import Chars Regex RegexFacts StringFacts Utils Shapes ShapeFacts TargetFacts.

Section WithIpaddr.

Context {address : Type}.
Variable ipaddr_parse : string -> option address.
Variable ipaddr_parseCIDR : string -> option (address * Z).

(** The guards an accepted target has passed. *)
Lemma validateTarget_accepted v :
  validateTarget ipaddr_parse v = Returned tt ->
  exists t,
    v = VString t /\ truthy t = true
    /\ first_included DANGEROUS_CHARS t = None
    /\ includes t ".." = false /\ startsWith t "/" = false
    /\ includes t "~" = false
    /\ (253 <? String.length t)%nat = false
    /\ (isValidIPAddress ipaddr_parse t = true
        \/ (isValidIPAddress ipaddr_parse t = false
            /\ test LOOKS_LIKE_IPV4 t = false /\ includes t ":" = false
            /\ test VALID_HOSTNAME_PATTERN t = true)).
Proof.
  destruct v as [| | | |t| |]; try discriminate.
  unfold validateTarget. intros H. exists t. split; [reflexivity|].
  destruct (truthy t); cbn [negb] in H; [|discriminate].
  destruct (first_included DANGEROUS_CHARS t); [discriminate|].
  destruct (includes t "..") eqn:E1; [discriminate|].
  destruct (startsWith t "/") eqn:E2; [discriminate|].
  destruct (includes t "~") eqn:E3; [discriminate|].
  cbn [orb] in H.
  destruct (253 <? String.length t)%nat; [discriminate|].
  repeat (split; [reflexivity|]).
  destruct (isValidIPAddress ipaddr_parse t); [now left|right].
  destruct (test LOOKS_LIKE_IPV4 t); [discriminate|].
  destruct (includes t ":"); [discriminate|].
  destruct (test VALID_HOSTNAME_PATTERN t); [|discriminate].
  now repeat split.
Qed.

(** A hostname that is no list of numbers passes every guard. *)
Lemma validateTarget_hostname t :
  isValidIPAddress ipaddr_parse t = false ->
  test VALID_HOSTNAME_PATTERN t = true ->
  test LOOKS_LIKE_IPV4 t = false ->
  (253 <? String.length t)%nat = false ->
  validateTarget ipaddr_parse (VString t) = Returned tt.
Proof.
  intros Hip Hhost Hlooks Hlen. unfold validateTarget.
  rewrite (hostname_truthy t Hhost), (hostname_no_dangerous t Hhost).
  rewrite (hostname_no_dots_in_a_row t Hhost).
  assert (Hslash : startsWith t "/" = false).
  { destruct (startsWith t "/") eqn:E; [|reflexivity].
    apply startsWith_includes in E.
    now rewrite (hostname_excludes t "/" Hhost eq_refl) in E. }
  rewrite Hslash, (hostname_excludes t "~" Hhost eq_refl).
  cbn [negb orb]. rewrite Hlen, Hip, Hlooks.
  rewrite (hostname_excludes t ":" Hhost eq_refl), Hhost. reflexivity.
Qed.

Lemma first_included_none chars s :
  first_included chars s = None <->
  forall c, In c chars -> includes s c = false.
Proof.
  unfold first_included. split.
  - intros H c Hc. exact (find_none _ _ H c Hc).
  - intros H. destruct (find (includes s) chars) as [c|] eqn:E; [|reflexivity].
    apply find_some in E as [Hin Hc]. rewrite (H c Hin) in Hc. discriminate.
Qed.

Lemma validateRoutes_loop_accepted l :
  validateRoutes_loop ipaddr_parseCIDR l = Returned tt ->
  exists rs, l = map VString rs
             /\ forallb (isValidCIDR ipaddr_parseCIDR) rs = true.
Proof.
  induction l as [|v l IH]; simpl.
  - intros _. now exists [].
  - destruct v as [| | | |r| |]; try discriminate.
    destruct (isValidCIDR ipaddr_parseCIDR r) eqn:Er; simpl; [|discriminate].
    intros H. destruct (IH H) as (rs & -> & Hrs).
    exists (r :: rs). simpl. now rewrite Er, Hrs.
Qed.

End WithIpaddr.

End ValidatorFacts.

(** ** Validator: further properties *)

Import Shapes.

(** X1. [VALID_HOSTNAME_PATTERN] accepts exactly the strings whose parts
    between the dots are all labels: at least one character, letters,
    digits and hyphens only, a letter or a digit first and last. *)
Theorem hostname_pattern_accepts_labels (s : string) :
  test VALID_HOSTNAME_PATTERN s = forallb is_label (Ipaddr.split "." s).
Proof.
  unfold VALID_HOSTNAME_PATTERN.
  rewrite (ShapeFacts.separated_by_dots label TargetFacts.label_no_dot).
  apply TargetFacts.forallb_ext_all. intros l.
  apply eq_true_iff_eq. rewrite RegexFacts.test_spec.
  apply ShapeFacts.label_spec.
Qed.

(** X2. The pattern of [looksLikeIPv4] accepts exactly the strings of
    digits and dots that the hostname pattern accepts: without the guard
    that uses it, every such string would pass as a hostname. *)
Theorem looks_like_IPv4_is_numeric_hostname (s : string) :
  test LOOKS_LIKE_IPV4 s
  = all_chars digit_or_dot s && test VALID_HOSTNAME_PATTERN s.
Proof.
  apply eq_true_iff_eq. rewrite andb_true_iff. split.
  - intros H. split.
    + apply RegexFacts.test_spec in H. revert H.
      apply ShapeFacts.matches_alphabet. unfold digit_or_dot. simpl.
      assert (Hd : forall c, digit c = true -> digit c || dot c = true)
        by (intros c ->; reflexivity).
      assert (Hp : forall c, dot c = true -> digit c || dot c = true)
        by (intros c ->; apply orb_true_r).
      tauto.
    + rewrite TargetFacts.looks_like_IPv4_parts in H.
      rewrite TargetFacts.hostname_parts.
      rewrite forallb_forall in *. intros l Hl.
      apply ShapeFacts.is_number_is_label. now apply H.
  - intros [Hd Hh].
    now apply UtilsFacts.hostname_of_digits_looks_like_IPv4.
Qed.

(** X3. A target that ipaddr.js does not parse is accepted by
    [validateTarget] exactly when it matches the hostname pattern, does
    not look like an IPv4 address and has at most 253 characters: the
    other guards reject no such string. *)
Theorem validateTarget_accepts_hostnames_exactly
    {address : Type} (ipaddr_parse : string -> option address)
    (target : string) :
  isValidIPAddress ipaddr_parse target = false ->
  (validateTarget ipaddr_parse (VString target) = Returned tt <->
   test VALID_HOSTNAME_PATTERN target = true
   /\ test LOOKS_LIKE_IPV4 target = false
   /\ (String.length target <= 253)%nat).
Proof.
  intros Hip. split.
  - intros H. apply ValidatorFacts.validateTarget_accepted in H
      as (t & [= <-] & _ & _ & _ & _ & _ & Hlen & [Hv|(_ & Hl & _ & Hh)]);
      [congruence|].
    apply Nat.ltb_ge in Hlen. auto.
  - intros (Hh & Hl & Hlen).
    apply ValidatorFacts.validateTarget_hostname; try assumption.
    now apply Nat.ltb_ge.
Qed.

Lemma validateTarget_accepts_hostnames_exactly_witness :
  isValidIPAddress Ipaddr.parse "my-server.example.com" = false
  /\ (validateTarget Ipaddr.parse (VString "my-server.example.com")
      = Returned tt <->
      test VALID_HOSTNAME_PATTERN "my-server.example.com" = true
      /\ test LOOKS_LIKE_IPV4 "my-server.example.com" = false
      /\ (String.length "my-server.example.com" <= 253)%nat).
Proof.
  split; [reflexivity|].
  apply (validateTarget_accepts_hostnames_exactly Ipaddr.parse).
  reflexivity.
Defined.

(** X4. Whatever ipaddr.js accepts, a value that [validateTarget] lets
    through is a string of 1 to 253 characters in which no character of
    [DANGEROUS_CHARS] occurs, nor two dots in a row, nor a tilde, and which
    does not start with a slash. *)
Theorem accepted_target_is_safe
    {address : Type} (ipaddr_parse : string -> option address) (v : value) :
  validateTarget ipaddr_parse v = Returned tt ->
  exists target,
    v = VString target
    /\ (1 <= String.length target <= 253)%nat
    /\ (forall c, In c DANGEROUS_CHARS -> includes target c = false)
    /\ includes target ".." = false
    /\ startsWith target "/" = false
    /\ includes target "~" = false.
Proof.
  intros H. apply ValidatorFacts.validateTarget_accepted in H
    as (t & -> & Ht & Hd & H1 & H2 & H3 & Hlen & _).
  exists t. split; [reflexivity|].
  apply Nat.ltb_ge in Hlen.
  pose proof (proj1 (ValidatorFacts.first_included_none _ _) Hd) as Hd'.
  repeat split; try assumption.
  destruct t; [discriminate | simpl; lia].
Qed.

Lemma accepted_target_is_safe_witness :
  validateTarget Ipaddr.parse (VString "2001:db8::1") = Returned tt
  /\ exists target,
       VString "2001:db8::1" = VString target
       /\ (1 <= String.length target <= 253)%nat
       /\ (forall c, In c DANGEROUS_CHARS -> includes target c = false)
       /\ includes target ".." = false
       /\ startsWith target "/" = false
       /\ includes target "~" = false.
Proof.
  split; [reflexivity|].
  apply (accepted_target_is_safe Ipaddr.parse). reflexivity.
Defined.

(** X5. [validateTarget] is the stricter guard: a value it accepts is
    accepted by [validateStringInput] under every field name. *)
Theorem accepted_target_is_accepted_input
    {address : Type} (ipaddr_parse : string -> option address)
    (v : value) (fieldName : string) :
  validateTarget ipaddr_parse v = Returned tt ->
  validateStringInput v fieldName = Returned tt.
Proof.
  intros H. apply ValidatorFacts.validateTarget_accepted in H
    as (t & -> & _ & Hd & _ & _ & _ & Hlen & _).
  unfold validateStringInput.
  assert (Hb : first_included DANGEROUS_CHARS_BASIC t = None).
  { apply ValidatorFacts.first_included_none. intros c Hc.
    apply (proj1 (ValidatorFacts.first_included_none _ _) Hd).
    now apply UtilsFacts.BASIC_in_DANGEROUS_CHARS. }
  rewrite Hb. apply Nat.ltb_ge in Hlen.
  assert (Hk : (1000 <? String.length t)%nat = false)
    by (apply Nat.ltb_ge; lia).
  now rewrite Hk.
Qed.

Lemma accepted_target_is_accepted_input_witness :
  validateTarget Ipaddr.parse (VString "example.com") = Returned tt
  /\ validateStringInput (VString "example.com") "hostname" = Returned tt.
Proof.
  split; [reflexivity|].
  apply (accepted_target_is_accepted_input Ipaddr.parse). reflexivity.
Defined.

(** X6. [validateRoutes] on two arrays put end to end fails as it does on
    the first one if that fails, and otherwise does what it does on the
    second one. *)
Theorem validateRoutes_of_concatenation
    {address : Type} (ipaddr_parseCIDR : string -> option (address * Z))
    (l1 l2 : list value) :
  validateRoutes ipaddr_parseCIDR (VArray (l1 ++ l2))
  = match validateRoutes ipaddr_parseCIDR (VArray l1) with
    | Returned _ => validateRoutes ipaddr_parseCIDR (VArray l2)
    | Thrown e => Thrown e
    end.
Proof.
  simpl. induction l1 as [|v l1 IH]; simpl; [reflexivity|].
  destruct v as [| | | |r| |]; try reflexivity.
  destruct (isValidCIDR ipaddr_parseCIDR r); simpl; [exact IH | reflexivity].
Qed.

(** X7. [validateRoutes] accepts a value exactly when it is an array, all
    of whose elements are strings that pass [isValidCIDR]; the empty array
    is accepted. *)
Theorem validateRoutes_accepts_exactly
    {address : Type} (ipaddr_parseCIDR : string -> option (address * Z))
    (v : value) :
  validateRoutes ipaddr_parseCIDR v = Returned tt <->
  exists rs, v = VArray (map VString rs)
             /\ forallb (isValidCIDR ipaddr_parseCIDR) rs = true.
Proof.
  split.
  - destruct v as [| | | | |l|]; try discriminate. simpl. intros H.
    apply ValidatorFacts.validateRoutes_loop_accepted in H as (rs & -> & Hrs).
    eauto.
  - intros (rs & -> & Hrs). simpl.
    rewrite <- (app_nil_r (map VString rs)).
    now rewrite (UtilsFacts.validateRoutes_loop_valid_prefix _ _ _ Hrs).
Qed.

(** ** Credential manager: further facts *)

Module ManagerFacts.

Import OAuth OAuthFacts.

(** A settled request leaves the configuration alone, and what it does
    depends on the manager through the configuration only. *)
Lemma refreshToken_resume_config out now m :
  config (snd (refreshToken_resume out now m)) = config m.
Proof.
  destruct out; simpl; [|reflexivity..].
  now destruct (valid_time _).
Qed.

Lemma refreshToken_resume_by_config out now m m' :
  config m = config m' ->
  refreshToken_resume out now m = refreshToken_resume out now m'.
Proof.
  intros E. unfold refreshToken_resume, clear. now rewrite E.
Qed.

Lemma isTokenValid_earlier m now later :
  now <= later -> isTokenValid m later = true -> isTokenValid m now = true.
Proof.
  intros Hle H. apply isTokenValid_true in H as (token & expiry & ? & ? & ? & ?).
  apply isTokenValid_true. exists token, expiry. repeat split; try assumption.
  lia.
Qed.



Lemma constructor_returned cfg m :
  constructor cfg = Returned m ->
  clientId cfg <> EmptyString /\ clientSecret cfg <> EmptyString
  /\ m = {| config := spread_over_default cfg;
            accessToken := None; tokenExpiry := None |}.
Proof.
  unfold constructor. simpl.
  destruct (truthy (clientId cfg)) eqn:E1; simpl; [|discriminate].
  destruct (truthy (clientSecret cfg)) eqn:E2; simpl; [|discriminate].
  intros [= <-]. apply truthy_iff in E1, E2. auto.
Qed.

(** The credentials of a manager stay the non-empty ones it was built
    with. *)
Lemma reachable_credentials m :
  reachable m ->
  config_clientId (config m) <> EmptyString
  /\ config_clientSecret (config m) <> EmptyString.
Proof.
  induction 1 as [cfg m Hc|m now r m' _ IH Hg
                 |m0 now req resume m out now' _ _ Hg _ IH _
                 |m _ IH].
  - apply constructor_returned in Hc as (H1 & H2 & ->). simpl. auto.
  - now apply getAccessToken_Sync in Hg as ->.
  - apply getAccessToken_Await in Hg as [_ ->].
    now rewrite refreshToken_resume_config.
  - exact IH.
Qed.

End ManagerFacts.

(** ** Credential manager: further properties *)

(** X8. After a token response received at time [t0], with a non-empty
    token and an expiry a [Date] can hold, [getAccessToken] serves that
    token from the cache as long as less than [expires_in - 60] seconds
    have passed, and issues a new request from then on. *)
Theorem token_served_until_buffer
    (data : OAuthTokenResponse) (t0 : Z) (m : TailscaleOAuthManager)
    (now : Z) :
  access_token data <> EmptyString ->
  valid_time (t0 + expires_in data * 1000) = true ->
  (now - t0 < (expires_in data - 60) * 1000 ->
   getAccessToken (snd (refreshToken_resume (Resolved data) t0 m)) now
   = Sync (Returned (access_token data))
       (snd (refreshToken_resume (Resolved data) t0 m)))
  /\ ((expires_in data - 60) * 1000 <= now - t0 ->
      getAccessToken (snd (refreshToken_resume (Resolved data) t0 m)) now
      = Await (token_request (config m)) refreshToken_resume).
Proof.
  intros Hne Hvalid. unfold refreshToken_resume. rewrite Hvalid.
  cbn [snd]. unfold getAccessToken, refreshToken. split; intros Hnow.
  - assert (Hv : isTokenValid
                   {| config := config m;
                      accessToken := Some (access_token data);
                      tokenExpiry := Some (t0 + expires_in data * 1000) |} now
                 = true).
    { apply OAuthFacts.isTokenValid_true. do 2 eexists.
      repeat split; [exact Hne | lia]. }
    rewrite Hv. cbn [accessToken].
    now apply OAuthFacts.truthy_iff in Hne as ->.
  - destruct (isTokenValid _ now) eqn:Hv; [|reflexivity].
    apply OAuthFacts.isTokenValid_true in Hv as (? & ? & _ & _ & [= <-] & ?). lia.
Qed.

Lemma token_served_until_buffer_witness :
  access_token {| access_token := "tskey-1"; token_type := "Bearer";
                  expires_in := 3600; scope := None |} <> EmptyString
  /\ valid_time (1000 + expires_in
                   {| access_token := "tskey-1"; token_type := "Bearer";
                      expires_in := 3600; scope := None |} * 1000) = true
  /\ getAccessToken
       (snd (refreshToken_resume
               (Resolved {| access_token := "tskey-1"; token_type := "Bearer";
                            expires_in := 3600; scope := None |})
               1000 (holding None None))) 3540999
     = Sync (Returned "tskey-1")
         (snd (refreshToken_resume
                 (Resolved {| access_token := "tskey-1"; token_type := "Bearer";
                              expires_in := 3600; scope := None |})
                 1000 (holding None None))).
Proof.
  assert (H1 : access_token {| access_token := "tskey-1"; token_type := "Bearer";
                               expires_in := 3600; scope := None |}
               <> EmptyString) by discriminate.
  assert (H2 : valid_time (1000 + expires_in
                 {| access_token := "tskey-1"; token_type := "Bearer";
                    expires_in := 3600; scope := None |} * 1000) = true)
    by reflexivity.
  split; [exact H1 | split; [exact H2|]].
  apply (proj1 (token_served_until_buffer _ 1000 (holding None None) 3540999
                  H1 H2)).
  simpl. lia.
Defined.

(** X9. A token that lives for 60 seconds or less is never served from
    the cache: every [getAccessToken] at or after the time of the response
    issues a new request. *)
Theorem short_lived_token_is_never_served
    (data : OAuthTokenResponse) (t0 : Z) (m : TailscaleOAuthManager)
    (now : Z) :
  expires_in data <= 60 -> t0 <= now ->
  getAccessToken (snd (refreshToken_resume (Resolved data) t0 m)) now
  = Await (token_request (config m)) refreshToken_resume.
Proof.
  intros Hshort Hnow. unfold getAccessToken, refreshToken.
  rewrite ManagerFacts.refreshToken_resume_config.
  destruct (isTokenValid _ now) eqn:Hv; [|reflexivity].
  apply OAuthFacts.isTokenValid_true in Hv as (token & expiry & _ & _ & He & Hf).
  unfold refreshToken_resume in He.
  destruct (valid_time _); simpl in He; [|discriminate].
  injection He as <-. lia.
Qed.

Lemma short_lived_token_is_never_served_witness :
  expires_in {| access_token := "tskey-1"; token_type := "Bearer";
                expires_in := 60; scope := None |} <= 60
  /\ 1000 <= 1000
  /\ getAccessToken
       (snd (refreshToken_resume
               (Resolved {| access_token := "tskey-1"; token_type := "Bearer";
                            expires_in := 60; scope := None |})
               1000 (holding None None))) 1000
     = Await (token_request (config (holding None None))) refreshToken_resume.
Proof.
  assert (H1 : expires_in {| access_token := "tskey-1"; token_type := "Bearer";
                             expires_in := 60; scope := None |} <= 60)
    by (simpl; lia).
  assert (H2 : 1000 <= 1000) by lia.
  exact (conj H1 (conj H2
    (short_lived_token_is_never_served _ 1000 (holding None None) 1000 H1 H2))).
Defined.

(** X10. Leaving the manager alone, time only makes a cached token stale:
    a call that issues a request would do so at any later time, and a call
    that is answered from the cache would be at any earlier time. *)
Theorem stale_token_stays_stale
    (m : TailscaleOAuthManager) (now later : Z) :
  now <= later ->
  (forall req resume,
     getAccessToken m now = Await req resume ->
     getAccessToken m later = Await req resume)
  /\ (forall r m',
        getAccessToken m later = Sync r m' ->
        getAccessToken m now = Sync r m').
Proof.
  intros Hle. unfold getAccessToken, refreshToken.
  destruct (isTokenValid m later) eqn:Hl.
  - rewrite (ManagerFacts.isTokenValid_earlier m now later Hle Hl).
    split; [|auto].
    intros req resume H. destruct (accessToken m) as [t|]; [|discriminate].
    destruct (negb (truthy t)); discriminate.
  - split; [|discriminate].
    intros req resume H.
    destruct (isTokenValid m now); [|exact H].
    destruct (accessToken m) as [t|]; [|discriminate].
    destruct (negb (truthy t)); discriminate.
Qed.

Lemma stale_token_stays_stale_witness :
  3540000 <= 3600000
  /\ getAccessToken (holding (Some "tskey-1") (Some 3600000)) 3600000
     = Await (token_request (spread_over_default credentials))
         refreshToken_resume.
Proof.
  assert (H : 3540000 <= 3600000) by lia.
  split; [exact H|].
  apply (proj1 (stale_token_stays_stale
                  (holding (Some "tskey-1") (Some 3600000)) _ _ H)).
  reflexivity.
Defined.

(** X11. What a settling request returns and leaves behind does not
    depend on the token cached before it: of two requests in flight the one
    that settles last decides, and a failure that settles after a success
    clears the token the success has stored. *)
Theorem last_settlement_wins
    (m : TailscaleOAuthManager) (out1 out2 : HttpOutcome) (now1 now2 : Z) :
  refreshToken_resume out2 now2 (snd (refreshToken_resume out1 now1 m))
  = refreshToken_resume out2 now2 m.
Proof.
  apply ManagerFacts.refreshToken_resume_by_config,
        ManagerFacts.refreshToken_resume_config.
Qed.

(** X12. [invalidateToken] forces the next [getAccessToken] to issue a
    request, however fresh the token was, and invalidating twice is
    invalidating once. *)
Theorem invalidateToken_forces_refresh (m : TailscaleOAuthManager) (now : Z) :
  getAccessToken (invalidateToken m) now
  = Await (token_request (config m)) refreshToken_resume
  /\ invalidateToken (invalidateToken m) = invalidateToken m.
Proof. split; reflexivity. Qed.

(** X13. Every token request that a manager issues, in any state it
    reaches, carries a non-empty client id and a non-empty client
    secret. *)
Theorem requests_carry_credentials (m : TailscaleOAuthManager) :
  reachable m ->
  forall now req resume,
    getAccessToken m now = Await req resume ->
    exists id secret,
      form req = [("client_id", id); ("client_secret", secret)]
      /\ id <> EmptyString /\ secret <> EmptyString.
Proof.
  intros Hm now req resume H.
  apply OAuthFacts.getAccessToken_Await in H as [-> _].
  destruct (ManagerFacts.reachable_credentials m Hm) as [Hid Hsecret].
  exists (config_clientId (config m)), (config_clientSecret (config m)).
  now repeat split.
Qed.

Lemma requests_carry_credentials_witness :
  reachable (holding None None)
  /\ exists id secret,
       form (token_request (config (holding None None)))
       = [("client_id", id); ("client_secret", secret)]
       /\ id <> EmptyString /\ secret <> EmptyString.
Proof.
  assert (H : reachable (holding None None))
    by (apply (reach_constructor credentials); reflexivity).
  split; [exact H|].
  exact (requests_carry_credentials (holding None None) H 0
           (token_request (config (holding None None)))
           refreshToken_resume eq_refl).
Defined.

(** X14. The two discovery helpers agree: [isConfigured] is true exactly
    when [fromEnvironment] returns a manager, which is exactly when both
    variables are set to non-empty values; the manager then carries these
    two values and the value of TAILSCALE_API_BASE_URL as it is, and holds
    no token. A variable set to the empty string counts as unset. *)
Theorem discovery_helpers_agree (env : gmap string string) :
  (isConfigured env = true <->
   exists id secret,
     env !! "TAILSCALE_OAUTH_CLIENT_ID" = Some id /\ id <> EmptyString
     /\ env !! "TAILSCALE_OAUTH_CLIENT_SECRET" = Some secret
     /\ secret <> EmptyString)
  /\ (forall m,
        fromEnvironment env = Returned (Some m) <->
        exists id secret,
          env !! "TAILSCALE_OAUTH_CLIENT_ID" = Some id /\ id <> EmptyString
          /\ env !! "TAILSCALE_OAUTH_CLIENT_SECRET" = Some secret
          /\ secret <> EmptyString
          /\ m = {| config :=
                      {| config_clientId := id;
                         config_clientSecret := secret;
                         config_baseUrl := env !! "TAILSCALE_API_BASE_URL" |};
                    accessToken := None; tokenExpiry := None |})
  /\ (isConfigured env = false <-> fromEnvironment env = Returned None).
Proof.
  unfold isConfigured, fromEnvironment, constructor, spread_over_default.
  destruct (env !! "TAILSCALE_OAUTH_CLIENT_ID") as [id|];
    [|repeat split; try discriminate; intros (? & ? & [=] & _)].
  destruct (env !! "TAILSCALE_OAUTH_CLIENT_SECRET") as [secret|]; simpl.
  2: { rewrite andb_false_r.
       repeat split; try discriminate; intros (? & ? & _ & _ & [=] & _). }
  destruct (truthy id) eqn:Eid; simpl.
  2: { apply not_true_iff_false in Eid. rewrite OAuthFacts.truthy_iff in Eid.
       repeat split; try discriminate.
       - intros (? & ? & [= <-] & Hne & _). now destruct Eid.
       - intros (? & ? & [= <-] & Hne & _). now destruct Eid. }
  destruct (truthy secret) eqn:Esecret; simpl.
  2: { apply not_true_iff_false in Esecret.
       rewrite OAuthFacts.truthy_iff in Esecret.
       repeat split; try discriminate.
       - intros (? & ? & _ & _ & [= <-] & Hne). now destruct Esecret.
       - intros (? & ? & _ & _ & [= <-] & Hne & _). now destruct Esecret. }
  apply OAuthFacts.truthy_iff in Eid, Esecret.
  repeat split; try discriminate.
  - exists id, secret. auto.
  - intros [= <-]. exists id, secret. auto.
  - now intros (? & ? & [= <-] & _ & [= <-] & _ & ->).
Qed.

(** X15. When both credentials and TAILSCALE_API_BASE_URL are set, the
    manager of [fromEnvironment] posts to the value of that variable
    followed by the path of the token endpoint, as it stands: nothing is
    trimmed or added between the two. *)
Theorem fromEnvironment_posts_to_base_url
    (env : gmap string string) (id secret base : string) :
  env !! "TAILSCALE_OAUTH_CLIENT_ID" = Some id -> id <> EmptyString ->
  env !! "TAILSCALE_OAUTH_CLIENT_SECRET" = Some secret ->
  secret <> EmptyString ->
  env !! "TAILSCALE_API_BASE_URL" = Some base ->
  exists m,
    fromEnvironment env = Returned (Some m)
    /\ forall now,
         getAccessToken m now
         = Await
             {| url := base +:+ "/api/v2/oauth/token";
                form := [("client_id", id); ("client_secret", secret)];
                content_type := "application/x-www-form-urlencoded";
                timeout := 30000 |}
             refreshToken_resume.
Proof.
  intros Hid Hne Hsecret Hne' Hbase.
  apply OAuthFacts.truthy_iff in Hne, Hne'.
  unfold fromEnvironment, constructor, spread_over_default.
  rewrite Hid, Hsecret, Hbase. simpl. rewrite Hne, Hne'. simpl.
  eexists. split; [reflexivity|]. intros now. reflexivity.
Qed.

Lemma fromEnvironment_posts_to_base_url_witness :
  exists m,
    fromEnvironment
      (<["TAILSCALE_API_BASE_URL" := "https://custom.tailscale.com/"]>
         (<["TAILSCALE_OAUTH_CLIENT_ID" := "id"]>
            {["TAILSCALE_OAUTH_CLIENT_SECRET" := "secret"]}))
    = Returned (Some m)
    /\ forall now,
         getAccessToken m now
         = Await
             {| url := "https://custom.tailscale.com/"
                       +:+ "/api/v2/oauth/token";
                form := [("client_id", "id"); ("client_secret", "secret")];
                content_type := "application/x-www-form-urlencoded";
                timeout := 30000 |}
             refreshToken_resume.
Proof.
  apply (fromEnvironment_posts_to_base_url _ "id" "secret"
           "https://custom.tailscale.com/");
    solve [reflexivity | discriminate].
Defined.


(** ** The legacy patterns *)

Module LegacyFacts.

Import Chars Regex RegexFacts StringFacts Shapes.

Lemma at_most_Class_intro p n s :
  (String.length s <= n)%nat -> all_chars p s = true ->
  matches (at_most n (Class p)) s.
Proof.
  revert s. induction n as [|n IH]; intros s Hlen Hs.
  - destruct s; [constructor | simpl in Hlen; lia].
  - simpl. unfold Opt. destruct s as [|c s]; [apply MAltL; constructor|].
    simpl in Hlen, Hs. apply andb_true_iff in Hs as [Hc Hs].
    apply MAltR. change (String c s) with (String c EmptyString +:+ s).
    apply MCat; [now constructor | apply IH; [lia | exact Hs]].
Qed.

Lemma between_times_Class_intro p lo k s :
  (lo <= String.length s <= lo + k)%nat -> all_chars p s = true ->
  matches (Cat (exactly lo (Class p)) (at_most k (Class p))) s.
Proof.
  revert s. induction lo as [|lo IH]; intros s Hlen Hs.
  - change s with (EmptyString +:+ s).
    apply MCat; [constructor | apply at_most_Class_intro; [lia | exact Hs]].
  - destruct s as [|c s]; [simpl in Hlen; lia|].
    simpl in Hlen, Hs. apply andb_true_iff in Hs as [Hc Hs].
    assert (H : matches (Cat (exactly lo (Class p)) (at_most k (Class p))) s)
      by (apply IH; [lia | exact Hs]).
    apply matches_Cat_inv in H as (s1 & s2 & -> & H1 & H2).
    change (String c (s1 +:+ s2)) with (String c s1 +:+ s2).
    apply MCat; [|exact H2]. simpl.
    change (String c s1) with (String c EmptyString +:+ s1).
    apply MCat; [now constructor | exact H1].
Qed.

(** Digits in the right number match [\d{lo,hi}]. *)
Lemma digits_of_length_matches lo hi s :
  (lo <= hi)%nat -> digits_of_length lo hi s = true ->
  matches (between_times lo hi (Class digit)) s.
Proof.
  intros Hle H. unfold digits_of_length in H.
  apply andb_true_iff in H as [H Hd]. apply andb_true_iff in H as [H1 H2].
  apply Nat.leb_le in H1, H2. unfold between_times.
  apply between_times_Class_intro; [lia | exact Hd].
Qed.

Lemma Class_dot_matches : matches (Class dot) ".".
Proof. now constructor. Qed.

Lemma Class_slash_matches : matches (Class slash) "/".
Proof. now constructor. Qed.

End LegacyFacts.

(** X17. The legacy [CIDR_PATTERN] checks the shape only. It accepts four
    groups of one to three digits separated by dots, a slash and one or two
    digits, whatever numbers they write, and any non-empty run of
    hexadecimal digits and colons followed by a slash and one to three
    digits. *)
Theorem legacy_CIDR_PATTERN_checks_shape_only (a b c d p h q : string) :
  (digits_of_length 1 3 a = true -> digits_of_length 1 3 b = true ->
   digits_of_length 1 3 c = true -> digits_of_length 1 3 d = true ->
   digits_of_length 1 2 p = true ->
   test CIDR_PATTERN
     (a +:+ "." +:+ b +:+ "." +:+ c +:+ "." +:+ d +:+ "/" +:+ p) = true)
  /\ (truthy h = true -> all_chars hexdigit_or_colon h = true ->
      digits_of_length 1 3 q = true ->
      test CIDR_PATTERN (h +:+ "/" +:+ q) = true).
Proof.
  split.
  - intros Ha Hb Hc Hd Hp. apply RegexFacts.test_spec, MAltL.
    apply LegacyFacts.digits_of_length_matches in Ha, Hb, Hc, Hd, Hp; try lia.
    pose proof LegacyFacts.Class_dot_matches as Hdot.
    pose proof LegacyFacts.Class_slash_matches as Hslash.
    replace (a +:+ "." +:+ b +:+ "." +:+ c +:+ "." +:+ d +:+ "/" +:+ p)
      with (((a +:+ ".") +:+ (b +:+ ".") +:+ (c +:+ ".") +:+ EmptyString)
            +:+ (d +:+ "/" +:+ p))
      by (rewrite !RegexFacts.append_assoc; reflexivity).
    apply MCat.
    + simpl. repeat (apply MCat; [now apply MCat|]). constructor.
    + apply MCat; [exact Hd | now apply MCat].
  - intros Hne Hh Hq. apply RegexFacts.test_spec, MAltR.
    apply LegacyFacts.digits_of_length_matches in Hq; [|lia].
    apply MCat.
    + apply StringFacts.Plus_Class_intro; [now destruct h | exact Hh].
    + apply MCat; [apply LegacyFacts.Class_slash_matches | exact Hq].
Qed.

Lemma legacy_CIDR_PATTERN_checks_shape_only_witness :
  test CIDR_PATTERN
    ("999" +:+ "." +:+ "999" +:+ "." +:+ "999" +:+ "." +:+ "999"
     +:+ "/" +:+ "99") = true
  /\ isValidCIDR Ipaddr.parseCIDR "999.999.999.999/99" = false.
Proof.
  split; [|reflexivity].
  apply (proj1 (legacy_CIDR_PATTERN_checks_shape_only
                  "999" "999" "999" "999" "99" ":" "0")); reflexivity.
Defined.

(** X18. [validateStringInput] accepts a value exactly when it is a string
    of at most 1000 characters in which no character of
    [DANGEROUS_CHARS_BASIC] occurs. *)
Theorem validateStringInput_accepts_exactly (v : value) (fieldName : string) :
  validateStringInput v fieldName = Returned tt <->
  exists s,
    v = VString s
    /\ (forall c, In c DANGEROUS_CHARS_BASIC -> includes s c = false)
    /\ (String.length s <= 1000)%nat.
Proof.
  split.
  - destruct v as [| | | |s| |]; try discriminate.
    unfold validateStringInput. intros H. exists s. split; [reflexivity|].
    destruct (first_included DANGEROUS_CHARS_BASIC s) eqn:E; [discriminate|].
    split; [exact (proj1 (ValidatorFacts.first_included_none _ _) E)|].
    destruct (1000 <? String.length s)%nat eqn:El; [discriminate|].
    now apply Nat.ltb_ge.
  - intros (s & -> & Hc & Hlen). unfold validateStringInput.
    rewrite (proj2 (ValidatorFacts.first_included_none _ _) Hc).
    apply Nat.ltb_ge in Hlen. now rewrite Hlen.
Qed.
